(** * Book catalog service: repository, cache-aside service and API paging

    A shallow embedding of the Go sources
      - package books: [Book], the error values, the [BookRepository]
        interface and [BookService];
      - package mysql (books/mysql/book.go): [BookRepository] over MySQL;
      - package cache: the Redis-backed [Cache];
      - package api: [BookController], its routes and the error middleware;
      - package validate: [Validator];
      - migrations/001_create_books_table.sql.

    Conventions.
      - [time.Time] is an instant, a number of nanoseconds counted from Go's
        zero time, so that [IsZero] is a comparison with [0].  Every
        [time.Now().UTC()] of the source is an explicit argument of the
        embedded function.
      - Go's [error] values are one inductive type; [errors.WithStack] and
        [errors.Wrap] are constructors and [Cause] unwraps them.
      - The books table is a list of rows plus the AUTO_INCREMENT counter.
        What its columns make of a value written to them (the width of
        VARCHAR and TEXT, the six fractional digits of DATETIME(6), the
        collation of the character columns) depends on the server and the
        driver, which the repository does not pin down: the model is
        parametric in it ([Engine]).  The connection is healthy, ids stay
        below the range of the id column, and a refused INSERT leaves the
        AUTO_INCREMENT counter where it was.
      - Goroutines started with [go func() {...}()] are recorded in the trace
        of a call as [EvGo]; the system model ([Sys], [exec], [run]) runs
        the calls on the service one at a time and the goroutines later, one
        cache operation at a time, or loses them. *)

From Stdlib Require Import ZArith Ascii String.
From stdpp Require Import base tactics option list strings pretty gmap sorting.

Local Open Scope Z_scope.

(** ** Entities and errors *)

Definition Time := Z.

Definition IsZero (t : Time) : bool := bool_decide (t = 0).

(** books.Book *)
Record Book := mkBook {
  ID : Z;
  Title : string;
  Author : string;
  ISBN : string;
  Description : string;
  PublishedAt : Time;
  CreatedAt : Time;
  UpdatedAt : Time;
  DeletedAt : option Time
}.

#[global] Instance Book_eq_dec : EqDecision Book.
Proof. solve_decision. Defined.

Inductive sql_error :=
| MySQLError (number : Z)
| ErrNoRows.

(** The errors of the program: the three values of package books, the two
    ways a [Get] on the cache fails, a [*validate.Validator], an error of the
    database driver, and an [*echo.HTTPError] as [ctx.Bind] returns it. *)
Inductive error :=
| ErrBookNotFound
| ErrBookAlreadyExists
| ErrInvalidBookData
| ErrCacheMiss
| ErrCacheFailure
| ErrValidation (msgs : list string)
| ErrSQL (e : sql_error)
| ErrEcho (code : Z)
| WithStack (e : error)
| Wrap (e : error) (msg : string).

(** errors.Cause *)
Fixpoint Cause (e : error) : error :=
  match e with
  | WithStack e' => Cause e'
  | Wrap e' _ => Cause e'
  | _ => e
  end.

Definition cache_error (e : error) : bool :=
  match Cause e with
  | ErrCacheMiss | ErrCacheFailure => true
  | _ => false
  end.

Inductive result (A : Type) :=
| Ok (a : A)
| Err (e : error).
Arguments Ok {A} a.
Arguments Err {A} e.

Definition is_ok {A} (r : result A) : bool :=
  match r with Ok _ => true | Err _ => false end.

Definition fails_with {A} (r : result A) (kind : error) : Prop :=
  exists e, r = Err e /\ Cause e = kind.

(** ** Cache keys of BookService *)

Definition getAllCacheKey (author : option string) : string :=
  match author with
  | Some a =>
      if bool_decide (a <> "") then "books:books:getall:author:" +:+ a
      else "books:books:getall:all"
  | None => "books:books:getall:all"
  end.

Definition getByIDCacheKey (id : Z) : string :=
  "books:books:getbyid:" +:+ pretty id.

(** ** The storage engine *)

(** The schema fixes the columns of the table; what a column makes of a value
    written to it is decided by the MySQL server (its version and SQL mode)
    and by the driver, neither of which the repository pins down.  The model
    is parametric in it:
      - [varchar n s] and [text s] are the value that a VARCHAR(n) or a TEXT
        column takes for the string [s], and [None] when the server refuses
        the statement: a value wider than its column is refused in strict
        SQL mode and cut to the width otherwise;
      - [datetime6 t] is the instant read back from a DATETIME(6) column
        after [t] was written to it: the column keeps six fractional digits
        of the nanoseconds of a [time.Time], by rounding or by cutting; it is
        [None] when the server refuses the value (the zero time under
        NO_ZERO_DATE, an instant outside the range of DATETIME);
      - [weight s] is the weight of [s] under the collation of the utf8mb4
        columns, which has no COLLATE clause in the schema: two strings
        compare equal exactly when their weights are equal.  The default
        collations of utf8mb4 ignore case. *)
Class Engine := {
  varchar : Z -> string -> option string;
  text : string -> option string;
  datetime6 : Time -> option Time;
  weight : string -> string
}.

(** A statement with a refused value fails: error 1406 (Data too long) for a
    character value, error 1292 (Incorrect datetime value) for an instant. *)
Definition char_value (x : option string) : sql_error + string :=
  match x with
  | Some s => inr s
  | None => inl (MySQLError 1406)
  end.

Definition datetime_value (x : option Time) : sql_error + Time :=
  match x with
  | Some t => inr t
  | None => inl (MySQLError 1292)
  end.

#[global] Instance sql_ret : MRet (sum sql_error) :=
  fun A (a : A) => inr a.

#[global] Instance sql_bind : MBind (sum sql_error) :=
  fun A B (f : A -> sql_error + B) (x : sql_error + A) =>
    match x with
    | inl e => inl e
    | inr a => f a
    end.

(** ** The books table (migrations/001_create_books_table.sql) *)

Record Table := mkTable {
  rows : list Book;
  auto_increment : Z
}.

Definition empty_table : Table := {| rows := []; auto_increment := 1 |}.

Definition active (b : Book) : bool := bool_decide (DeletedAt b = None).

(** UNIQUE KEY UQ_books_title_author_isbn (title, author, isbn): two rows
    collide when the three columns compare equal under the collation. *)
Definition same_key `{Engine} (a b : Book) : bool :=
  bool_decide (weight (Title a) = weight (Title b)) &&
  bool_decide (weight (Author a) = weight (Author b)) &&
  bool_decide (weight (ISBN a) = weight (ISBN b)).

Definition set_id (id : Z) (b : Book) : Book :=
  {| ID := id; Title := Title b; Author := Author b; ISBN := ISBN b;
     Description := Description b; PublishedAt := PublishedAt b;
     CreatedAt := CreatedAt b; UpdatedAt := UpdatedAt b;
     DeletedAt := DeletedAt b |}.

(** The values that the seven columns named by the INSERT of [Create] take
    for the values bound to them: title VARCHAR(255), author VARCHAR(255),
    isbn VARCHAR(13), description TEXT, and publishedAt, createdAt and
    updatedAt DATETIME(6). *)
Definition insert_values `{Engine} (b : Book) : sql_error + Book :=
  title ← char_value (varchar 255 (Title b));
  author ← char_value (varchar 255 (Author b));
  isbn ← char_value (varchar 13 (ISBN b));
  description ← char_value (text (Description b));
  publishedAt ← datetime_value (datetime6 (PublishedAt b));
  createdAt ← datetime_value (datetime6 (CreatedAt b));
  updatedAt ← datetime_value (datetime6 (UpdatedAt b));
  mret {| ID := ID b; Title := title; Author := author; ISBN := isbn;
          Description := description; PublishedAt := publishedAt;
          CreatedAt := createdAt; UpdatedAt := updatedAt;
          DeletedAt := DeletedAt b |}.

(** The row written by the INSERT of [Create] from the values [v] that its
    columns took: id comes from AUTO_INCREMENT and deletedAt, which the
    statement does not name, keeps its default NULL. *)
Definition inserted_row (id : Z) (v : Book) : Book :=
  {| ID := id; Title := Title v; Author := Author v; ISBN := ISBN v;
     Description := Description v; PublishedAt := PublishedAt v;
     CreatedAt := CreatedAt v; UpdatedAt := UpdatedAt v;
     DeletedAt := None |}.

(** INSERT INTO books (...) VALUES (...): refused when a column refuses its
    value, and with error 1062 when the unique key already holds the triple
    of the new row, whatever the deletedAt of the row that holds it.
    Returns LastInsertId. *)
Definition sql_insert `{Engine} (b : Book) (t : Table)
  : sql_error + (Z * Table) :=
  v ← insert_values b;
  let id := auto_increment t in
  let row := inserted_row id v in
  if existsb (same_key row) (rows t) then inl (MySQLError 1062)
  else inr (id, {| rows := rows t ++ [row]; auto_increment := id + 1 |}).

(** SELECT ... FROM books WHERE id = ? AND deletedAt IS NULL *)
Definition sql_select_by_id (id : Z) (t : Table) : sql_error + Book :=
  match find (fun r => bool_decide (ID r = id) && active r) (rows t) with
  | Some r => inr r
  | None => inl ErrNoRows
  end.

(** ORDER BY id ASC *)
Fixpoint insert_by_id (b : Book) (l : list Book) : list Book :=
  match l with
  | [] => [b]
  | x :: l' => if ID b <? ID x then b :: l else x :: insert_by_id b l'
  end.

Definition order_by_id (l : list Book) : list Book :=
  foldr insert_by_id [] l.

(** SELECT ... WHERE deletedAt IS NULL [AND author = ?] ORDER BY id ASC: the
    author column is compared with the parameter under its collation. *)
Definition sql_select_all `{Engine} (author : option string) (t : Table)
  : list Book :=
  order_by_id
    (List.filter
       (fun r => active r &&
                 match author with
                 | Some a => bool_decide (weight (Author r) = weight a)
                 | None => true
                 end)
       (rows t)).

(** LIMIT ? [OFFSET ?] applied to an ordered result *)
Definition sql_limit (limit : Z) (offset : option Z) (l : list Book) : list Book :=
  take (Z.to_nat limit)
       (drop (Z.to_nat (default 0 offset)) l).

(** The values that the six columns of the SET clause of [Update] take for
    the values bound to them; createdAt is not written. *)
Definition update_values `{Engine} (b : Book) : sql_error + Book :=
  title ← char_value (varchar 255 (Title b));
  author ← char_value (varchar 255 (Author b));
  isbn ← char_value (varchar 13 (ISBN b));
  description ← char_value (text (Description b));
  publishedAt ← datetime_value (datetime6 (PublishedAt b));
  updatedAt ← datetime_value (datetime6 (UpdatedAt b));
  mret {| ID := ID b; Title := title; Author := author; ISBN := isbn;
          Description := description; PublishedAt := publishedAt;
          CreatedAt := CreatedAt b; UpdatedAt := updatedAt;
          DeletedAt := DeletedAt b |}.

(** The row [r] after the SET clause wrote the values [v]: id, createdAt and
    deletedAt stay. *)
Definition updated_row (v r : Book) : Book :=
  {| ID := ID r; Title := Title v; Author := Author v; ISBN := ISBN v;
     Description := Description v; PublishedAt := PublishedAt v;
     CreatedAt := CreatedAt r; UpdatedAt := UpdatedAt v;
     DeletedAt := DeletedAt r |}.

Definition targets (id : Z) (r : Book) : bool :=
  bool_decide (ID r = id) && active r.

(** UPDATE books SET title, author, isbn, description, publishedAt,
    updatedAt WHERE id = :id AND deletedAt IS NULL: nothing is written when
    no row matches; otherwise the statement is refused when a column refuses
    its value, and with error 1062 when the row is rewritten to a triple
    that another row holds. *)
Definition sql_update `{Engine} (id : Z) (b : Book) (t : Table)
  : sql_error + Table :=
  if existsb (targets id) (rows t) then
    v ← update_values b;
    if existsb (fun r => same_key v r && negb (bool_decide (ID r = id))) (rows t)
    then inl (MySQLError 1062)
    else inr {| rows := map (fun r => if targets id r then updated_row v r else r)
                            (rows t);
                auto_increment := auto_increment t |}
  else inr t.

Definition deleted_row (deletedAt : Time) (r : Book) : Book :=
  {| ID := ID r; Title := Title r; Author := Author r; ISBN := ISBN r;
     Description := Description r; PublishedAt := PublishedAt r;
     CreatedAt := CreatedAt r; UpdatedAt := UpdatedAt r;
     DeletedAt := Some deletedAt |}.

(** UPDATE books SET deletedAt = :deletedAt WHERE id = :id AND deletedAt IS
    NULL: nothing is written when no row matches. *)
Definition sql_soft_delete `{Engine} (id : Z) (now : Time) (t : Table)
  : sql_error + Table :=
  if existsb (targets id) (rows t) then
    deletedAt ← datetime_value (datetime6 now);
    mret {| rows := map (fun r => if targets id r then deleted_row deletedAt r
                                  else r)
                        (rows t);
            auto_increment := auto_increment t |}
  else inr t.

(** ** The BookRepository interface (package books) *)

(** Every method takes the repository state and returns the next one. [Delete]
    also takes the clock reading its implementation makes. *)
Class BookRepository (R : Type) := {
  repo_Create : Book -> R -> result Book * R;
  repo_GetByID : Z -> R -> result Book * R;
  repo_GetAll : option string -> Z -> Z -> R -> result (list Book) * R;
  repo_Update : Z -> Book -> R -> result Book * R;
  repo_Delete : Time -> Z -> R -> result unit * R
}.

(** ** BookRepository over MySQL (books/mysql/book.go) *)

Module mysql.

Definition is_duplicate_key (e : sql_error) : bool :=
  match e with
  | MySQLError n => bool_decide (n = 1062)
  | ErrNoRows => false
  end.

Definition Create `{Engine} (book : Book) (t : Table) : result Book * Table :=
  match sql_insert book t with
  | inl e =>
      if is_duplicate_key e then (Err ErrBookAlreadyExists, t)
      else (Err (WithStack (ErrSQL e)), t)
  | inr (id, t') => (Ok (set_id id book), t')
  end.

Definition GetByID (id : Z) (t : Table) : result Book * Table :=
  match sql_select_by_id id t with
  | inl ErrNoRows => (Err ErrBookNotFound, t)
  | inl e => (Err (WithStack (ErrSQL e)), t)
  | inr book => (Ok book, t)
  end.

Definition GetAll `{Engine} (author : option string) (limit offset : Z)
    (t : Table) : result (list Book) * Table :=
  let filter :=
    match author with
    | Some a => if bool_decide (a <> "") then Some a else None
    | None => None
    end in
  let selected := sql_select_all filter t in
  let bookList :=
    if 0 <? limit then
      sql_limit limit (if 0 <? offset then Some offset else None) selected
    else selected in
  (Ok bookList, t).

(** The book that [Update] returns: a copy of [existingBook] with the six
    fields of [book] assigned to it. *)
Definition updatedBook (existingBook book : Book) : Book :=
  {| ID := ID existingBook; Title := Title book; Author := Author book;
     ISBN := ISBN book; Description := Description book;
     PublishedAt := PublishedAt book; CreatedAt := CreatedAt existingBook;
     UpdatedAt := UpdatedAt book; DeletedAt := DeletedAt existingBook |}.

Definition Update `{Engine} (id : Z) (book : Book) (t : Table)
  : result Book * Table :=
  match GetByID id t with
  | (Err err, t0) => (Err err, t0)
  | (Ok existingBook, t0) =>
      match sql_update id book t0 with
      | inl e =>
          if is_duplicate_key e then (Err ErrBookAlreadyExists, t0)
          else (Err (WithStack (ErrSQL e)), t0)
      | inr t' => (Ok (updatedBook existingBook book), t')
      end
  end.

Definition Delete `{Engine} (now : Time) (id : Z) (t : Table)
  : result unit * Table :=
  match GetByID id t with
  | (Err err, t0) => (Err err, t0)
  | (Ok _, t0) =>
      match sql_soft_delete id now t0 with
      | inl e => (Err (WithStack (ErrSQL e)), t0)
      | inr t' => (Ok tt, t')
      end
  end.

End mysql.

#[global] Instance mysql_BookRepository `{Engine} : BookRepository Table := {|
  repo_Create := mysql.Create;
  repo_GetByID := mysql.GetByID;
  repo_GetAll := mysql.GetAll;
  repo_Update := mysql.Update;
  repo_Delete := mysql.Delete
|}.

(** ** Cache (package cache) *)

(** The JSON document stored under a key: a book or a list of books. *)
Inductive CacheVal :=
| CBook (b : Book)
| CBooks (l : list Book).

(** A configured cache: the Redis contents and whether the server answers. *)
Record Cache := mkCache {
  c_store : gmap string CacheVal;
  c_up : bool
}.

Definition cache_Get (c : Cache) (key : string) : result CacheVal :=
  if c_up c then
    match c_store c !! key with
    | Some v => Ok v
    | None => Err ErrCacheMiss
    end
  else Err ErrCacheFailure.

(** [Get] into a [*Book]: a stored list does not unmarshal into a struct. *)
Definition cache_Get_Book (c : Cache) (key : string) : result Book :=
  match cache_Get c key with
  | Ok (CBook b) => Ok b
  | Ok (CBooks _) => Err ErrCacheFailure
  | Err e => Err e
  end.

(** [Get] into a [*[]Book] *)
Definition cache_Get_Books (c : Cache) (key : string) : result (list Book) :=
  match cache_Get c key with
  | Ok (CBooks l) => Ok l
  | Ok (CBook _) => Err ErrCacheFailure
  | Err e => Err e
  end.

Inductive CacheOp :=
| CSet (key : string) (v : CacheVal) (expires : Z)
| CDelete (key : string).

(** time.Hour, in nanoseconds *)
Definition Hour : Z := 3600000000000.

(** ** Calls made by the service *)

Inductive RepoCall :=
| RCreate (book : Book)
| RGetByID (id : Z)
| RGetAll (author : option string) (limit offset : Z)
| RUpdate (id : Z) (book : Book)
| RDelete (id : Z).

Inductive Event :=
| EvRepo (c : RepoCall)
| EvCacheGet (key : string)
| EvGo (task : list CacheOp).

Definition collaborator_calls (tr : list Event) : nat := length tr.

Definition spawned (tr : list Event) : list (list CacheOp) :=
  omap (fun e => match e with EvGo task => Some task | _ => None end) tr.

Definition deleted_keys (tr : list Event) : list string :=
  omap (fun o => match o with CDelete k => Some k | _ => None end)
       (concat (spawned tr)).

(** ** BookService (package books) *)

(** A service call runs over the repository state and records the calls it
    makes to its collaborators. The cache is read-only within a call: only
    [Get] is synchronous, [Set] and [Delete] run in goroutines. *)
Definition M (R A : Type) : Type := R -> A * R * list Event.

#[global] Instance M_ret {R} : MRet (M R) :=
  fun A (a : A) r => (a, r, []).

#[global] Instance M_bind {R} : MBind (M R) :=
  fun A B (f : A -> M R B) (m : M R A) r =>
    let '(a, r1, tr1) := m r in
    let '(b, r2, tr2) := f a r1 in
    (b, r2, tr1 ++ tr2).

Definition call_repo {R A} (c : RepoCall) (f : R -> result A * R) : M R (result A) :=
  fun r => let '(x, r') := f r in (x, r', [EvRepo c]).

Definition cache_get {R A} (key : string) (x : result A) : M R (result A) :=
  fun r => (x, r, [EvCacheGet key]).

Definition go {R} (task : list CacheOp) : M R unit :=
  fun r => (tt, r, [EvGo task]).

Definition with_times (created updated : Time) (b : Book) : Book :=
  {| ID := ID b; Title := Title b; Author := Author b; ISBN := ISBN b;
     Description := Description b; PublishedAt := PublishedAt b;
     CreatedAt := created; UpdatedAt := updated;
     DeletedAt := DeletedAt b |}.

Definition with_published (published : Time) (b : Book) : Book :=
  {| ID := ID b; Title := Title b; Author := Author b; ISBN := ISBN b;
     Description := Description b; PublishedAt := published;
     CreatedAt := CreatedAt b; UpdatedAt := UpdatedAt b;
     DeletedAt := DeletedAt b |}.

Module BookService.
Section WithRepository.

Context {R : Type} `{BookRepository R}.

(** [cache] is the service's [*cache.Cache], [None] when it is nil. *)
Variable cache : option Cache.

(** s.cache != nil *)
Definition configured : bool :=
  match cache with Some _ => true | None => false end.

Definition Create (now : Time) (book : Book) : M R (result Book) :=
  let book := with_times now now book in
  created ← call_repo (RCreate book) (repo_Create book);
  match created with
  | Err err => mret (Err (WithStack err))
  | Ok createdBook =>
      (if configured then go [CDelete (getAllCacheKey None)] else mret tt);;
      mret (Ok createdBook)
  end.

Definition GetByID (id : Z) : M R (result Book) :=
  hit ← match cache with
        | Some c =>
            let cacheKey := getByIDCacheKey id in
            cache_get cacheKey (cache_Get_Book c cacheKey)
        | None => mret (Err ErrCacheMiss)
        end;
  match hit with
  | Ok book => mret (Ok book)
  | Err _ =>
      found ← call_repo (RGetByID id) (repo_GetByID id);
      match found with
      | Err err => mret (Err (WithStack err))
      | Ok book =>
          (if configured
           then go [CSet (getByIDCacheKey id) (CBook book) (Hour * 1)]
           else mret tt);;
          mret (Ok book)
      end
  end.

Definition unpaginated (limit offset : Z) : bool :=
  bool_decide (limit = 0) && bool_decide (offset = 0).

Definition GetAll (author : option string) (limit offset : Z)
  : M R (result (list Book)) :=
  hit ← match cache with
        | Some c =>
            if unpaginated limit offset then
              let cacheKey := getAllCacheKey author in
              cache_get cacheKey (cache_Get_Books c cacheKey)
            else mret (Err ErrCacheMiss)
        | None => mret (Err ErrCacheMiss)
        end;
  match hit with
  | Ok books => mret (Ok books)
  | Err _ =>
      found ← call_repo (RGetAll author limit offset)
                        (repo_GetAll author limit offset);
      match found with
      | Err err => mret (Err (WithStack err))
      | Ok books =>
          (if configured
           then if unpaginated limit offset
                then go [CSet (getAllCacheKey author) (CBooks books) (Hour * 1)]
                else mret tt
           else mret tt);;
          mret (Ok books)
      end
  end.

(** [now] and [now'] are the two clock readings of the call. *)
Definition Update (now now' : Time) (id : Z) (book : Book) : M R (result Book) :=
  if bool_decide (Title book = "") then
    mret (Err (Wrap ErrInvalidBookData "title is required"))
  else if bool_decide (Author book = "") then
    mret (Err (Wrap ErrInvalidBookData "author is required"))
  else
    let book := with_times (CreatedAt book) now book in
    let book := if IsZero (PublishedAt book) then with_published now' book
                else book in
    updated ← call_repo (RUpdate id book) (repo_Update id book);
    match updated with
    | Err err => mret (Err (WithStack err))
    | Ok updatedBook =>
        (if configured
         then go [CDelete (getByIDCacheKey id); CDelete (getAllCacheKey None)]
         else mret tt);;
        mret (Ok updatedBook)
    end.

Definition Delete (now : Time) (id : Z) : M R (result unit) :=
  deleted ← call_repo (RDelete id) (repo_Delete now id);
  match deleted with
  | Err err => mret (Err (WithStack err))
  | Ok _ =>
      (if configured
       then go [CDelete (getByIDCacheKey id); CDelete (getAllCacheKey None)]
       else mret tt);;
      mret (Ok tt)
  end.

End WithRepository.
End BookService.

(** ** Go integers and strconv.Atoi *)

(** [int] is 64 bits wide on the platforms the service is built for. *)
Definition min_int : Z := - 2 ^ 63.
Definition max_int : Z := 2 ^ 63 - 1.

(** Two's-complement wrap-around of an [int] result. *)
Definition wrap_int (z : Z) : Z := (z + 2 ^ 63) mod 2 ^ 64 - 2 ^ 63.

Definition int_sub (a b : Z) : Z := wrap_int (a - b).
Definition int_mul (a b : Z) : Z := wrap_int (a * b).

Definition digit_of (c : ascii) : option Z :=
  let n := Z.of_N (Ascii.N_of_ascii c) in
  if (48 <=? n) && (n <=? 57) then Some (n - 48) else None.

Fixpoint parse_digits (s : string) (acc : Z) : option Z :=
  match s with
  | EmptyString => Some acc
  | String c s' =>
      match digit_of c with
      | Some d => parse_digits s' (10 * acc + d)
      | None => None
      end
  end.

(** The value of a decimal numeral: an optional sign, at least one digit,
    nothing else. *)
Definition numeral (s : string) : option Z :=
  let '(neg, body) :=
    match s with
    | String "+"%char rest => (false, rest)
    | String "-"%char rest => (true, rest)
    | _ => (false, s)
    end in
  match body with
  | EmptyString => None
  | _ =>
      match parse_digits body 0 with
      | Some n => Some (if neg then - n else n)
      | None => None
      end
  end.

(** strconv.Atoi: the numeral's value when it fits [int]; [None] stands for
    a non-nil error (syntax or range). *)
Definition Atoi (s : string) : option Z :=
  match numeral s with
  | Some v => if (min_int <=? v) && (v <=? max_int) then Some v else None
  | None => None
  end.

(** strconv.ParseInt(s, 10, 64): the numeral's value when it fits int64. *)
Definition ParseInt64 (s : string) : option Z :=
  match numeral s with
  | Some v => if (- 2 ^ 63 <=? v) && (v <=? 2 ^ 63 - 1) then Some v else None
  | None => None
  end.

(** ** BookController (package api) *)

(** validate.Validator *)
Module validate.

Definition Validator := list string.

Definition New : Validator := [].

Definition Required (field value : string) (v : Validator) : Validator :=
  if bool_decide (value = "") then v ++ [field +:+ " is required"] else v.

Definition HasErrors (v : Validator) : bool :=
  bool_decide (0 < length v)%nat.

(** The loop of [Error]: [i] is the index of the next error. *)
Fixpoint Error_loop (i : nat) (errors : list string) (msg : string) : string :=
  match errors with
  | [] => msg
  | err :: rest =>
      let msg := if bool_decide (0 < i)%nat then msg +:+ "; " else msg in
      Error_loop (S i) rest (msg +:+ err)
  end.

Definition Error (v : Validator) : string :=
  if bool_decide (length v = 0%nat) then ""
  else Error_loop 0 v "validation errors: ".

End validate.

Record CreateBookRequest := mkRequest {
  req_Title : string;
  req_Author : string;
  req_ISBN : string;
  req_Description : string;
  req_PublishedAt : string
}.

Record GetAllBooksResponse := mkResponse {
  Books : list Book;
  Page : Z;
  Limit : Z
}.

Module BookController.
Section WithService.

Context {R : Type} `{BookRepository R}.
Variable cache : option Cache.

(** time.Parse("2006-01-02", _); [None] stands for a non-nil error. *)
Variable parse_date : string -> option Time.

Definition book_of_request (req : CreateBookRequest) (publishedAt : Time) : Book :=
  {| ID := 0; Title := req_Title req; Author := req_Author req;
     ISBN := req_ISBN req; Description := req_Description req;
     PublishedAt := publishedAt; CreatedAt := 0; UpdatedAt := 0;
     DeletedAt := None |}.

(** [bound] is what [ctx.Bind(&req)] made of the request: the request it
    filled in, or its error. *)
Definition Create (now : Time) (bound : result CreateBookRequest)
  : M R (result Book) :=
  match bound with
  | Err err => mret (Err err)
  | Ok req =>
      let v := validate.New in
      let v := validate.Required "title" (req_Title req) v in
      let v := validate.Required "author" (req_Author req) v in
      let v := validate.Required "publishedAt" (req_PublishedAt req) v in
      if validate.HasErrors v then mret (Err (ErrValidation v))
      else
        match parse_date (req_PublishedAt req) with
        | None =>
            mret (Err (Wrap ErrInvalidBookData
                            "invalid publishedAt format, expected YYYY-MM-DD"))
        | Some publishedAt =>
            BookService.Create cache now (book_of_request req publishedAt)
        end
  end.

(** A query parameter that parses to a positive [int] is recognised. *)
Definition recognised (param : string) : option Z :=
  if bool_decide (param <> "") then
    match Atoi param with
    | Some parsed => if 0 <? parsed then Some parsed else None
    | None => None
    end
  else None.

Definition page_offset (page limit : option Z) : Z :=
  match limit with
  | Some l =>
      match page with
      | Some p => int_mul (int_sub p 1) l
      | None => 0
      end
  | None => 0
  end.

(** [author], [pageStr] and [limitStr] are the values of [ctx.QueryParam],
    empty when the parameter is not in the query. *)
Definition GetAll (author pageStr limitStr : string)
  : M R (result GetAllBooksResponse) :=
  let authorPtr := if bool_decide (author <> "") then Some author else None in
  let page := recognised pageStr in
  let limit := recognised limitStr in
  let offset := page_offset page limit in
  found ← BookService.GetAll cache authorPtr (default 0 limit) offset;
  match found with
  | Err err => mret (Err err)
  | Ok bookList =>
      mret (Ok {| Books := bookList;
                  Page := match page, limit with
                          | Some p, Some _ => p
                          | _, _ => 0
                          end;
                  Limit := default 0 limit |})
  end.

(** [idParam] is [ctx.Param("id")]. *)
Definition GetByID (idParam : string) : M R (result Book) :=
  match ParseInt64 idParam with
  | None => mret (Err (Wrap ErrInvalidBookData "invalid book ID"))
  | Some id => BookService.GetByID cache id
  end.

(** [now] and [now'] are the two clock readings of the service's [Update]. *)
Definition Update (now now' : Time) (idParam : string)
    (bound : result CreateBookRequest) : M R (result Book) :=
  match ParseInt64 idParam with
  | None => mret (Err (Wrap ErrInvalidBookData "invalid book ID"))
  | Some id =>
      match bound with
      | Err err => mret (Err err)
      | Ok req =>
          let v := validate.New in
          let v := validate.Required "title" (req_Title req) v in
          let v := validate.Required "author" (req_Author req) v in
          if validate.HasErrors v then mret (Err (ErrValidation v))
          else
            let parsed :=
              if bool_decide (req_PublishedAt req <> "") then
                match parse_date (req_PublishedAt req) with
                | Some t => Some t
                | None => None
                end
              else Some 0 in
            match parsed with
            | None =>
                mret (Err (Wrap ErrInvalidBookData
                                "invalid publishedAt format, expected YYYY-MM-DD"))
            | Some publishedAt =>
                BookService.Update cache now now' id
                  (book_of_request req publishedAt)
            end
      end
  end.

Definition Delete (now : Time) (idParam : string) : M R (result unit) :=
  match ParseInt64 idParam with
  | None => mret (Err (Wrap ErrInvalidBookData "invalid book ID"))
  | Some id => BookService.Delete cache now id
  end.

End WithService.
End BookController.

(** ** Routes and the error middleware (package api) *)

Inductive Payload :=
| JBook (b : Book)
| JBooks (r : GetAllBooksResponse).

(** What a handler leaves on the wire: [ctx.JSON], [ctx.NoContent], or the
    [echo.NewHTTPError(code, errCause.Error())] of the middleware, kept with
    the cause whose text is the message. *)
Inductive Response :=
| JSON (code : Z) (body : Payload)
| NoContent (code : Z)
| HTTPError (code : Z) (cause : error).

Definition status (r : Response) : Z :=
  match r with
  | JSON code _ | NoContent code | HTTPError code _ => code
  end.

(** A request as its handler reads it: query and path parameters, and for a
    body what [ctx.Bind] makes of it. *)
Inductive Request :=
| GET_books (author page limit : string)
| GET_book (idParam : string)
| POST_book (bound : result CreateBookRequest)
| PUT_book (idParam : string) (bound : result CreateBookRequest)
| DELETE_book (idParam : string).

Module api.

Definition StatusOK : Z := 200.
Definition StatusCreated : Z := 201.
Definition StatusNoContent : Z := 204.
Definition StatusBadRequest : Z := 400.
Definition StatusNotFound : Z := 404.
Definition StatusInternalServerError : Z := 500.

Definition getCodeByErr (err : error) : Z :=
  match Cause err with
  | ErrValidation _ => StatusBadRequest
  | _ =>
      match err with
      | ErrInvalidBookData | ErrBookAlreadyExists => StatusBadRequest
      | ErrBookNotFound => StatusNotFound
      | _ => StatusInternalServerError
      end
  end.

(** [next] is what the wrapped handler returned: the response it wrote, or
    its error. *)
Definition ErrorHandler (next : result Response) : Response :=
  match next with
  | Ok response => response
  | Err err =>
      let errCause := Cause err in
      HTTPError (getCodeByErr errCause) errCause
  end.

Definition written {A} (body : A -> Response) (r : result A)
  : result Response :=
  match r with
  | Ok a => Ok (body a)
  | Err err => Err err
  end.

Section Routes.

Context {R : Type} `{BookRepository R}.
Variable cache : option Cache.
Variable parse_date : string -> option Time.

(** The routes of [BookController.Routes], each behind [ErrorHandler].
    [now] and [now'] are the clock readings the request may make. *)
Definition Routes (now now' : Time) (rq : Request) : M R Response :=
  match rq with
  | GET_books author page limit =>
      r ← BookController.GetAll cache author page limit;
      mret (ErrorHandler
              (written (fun x => JSON StatusOK (JBooks x)) r))
  | GET_book idParam =>
      r ← BookController.GetByID cache idParam;
      mret (ErrorHandler
              (written (fun b => JSON StatusOK (JBook b)) r))
  | POST_book bound =>
      r ← BookController.Create cache parse_date now bound;
      mret (ErrorHandler
              (written (fun b => JSON StatusCreated (JBook b)) r))
  | PUT_book idParam bound =>
      r ← BookController.Update cache parse_date now now' idParam bound;
      mret (ErrorHandler
              (written (fun b => JSON StatusOK (JBook b)) r))
  | DELETE_book idParam =>
      r ← BookController.Delete cache now idParam;
      mret (ErrorHandler
              (written (fun _ => NoContent StatusNoContent) r))
  end.

End Routes.

End api.

(** ** The running system: calls, goroutines and the cache over time *)

Inductive Call :=
| CallCreate (now : Time) (book : Book)
| CallGetByID (id : Z)
| CallGetAll (author : option string) (limit offset : Z)
| CallUpdate (now now' : Time) (id : Z) (book : Book)
| CallDelete (now : Time) (id : Z).

Inductive Reply :=
| RBook (r : result Book)
| RBooks (r : result (list Book))
| RUnit (r : result unit).

Definition reply_error (r : Reply) : option error :=
  match r with
  | RBook (Err e) | RBooks (Err e) | RUnit (Err e) => Some e
  | _ => None
  end.

Definition is_mutation (c : Call) : bool :=
  match c with
  | CallCreate _ _ | CallUpdate _ _ _ _ | CallDelete _ _ => true
  | _ => false
  end.

Section Serve.

Context {R : Type} `{BookRepository R}.

(** One call on the service, as the controller makes it. *)
Definition serve (cache : option Cache) (c : Call) : M R Reply :=
  match c with
  | CallCreate now book =>
      r ← BookService.Create cache now book; mret (RBook r)
  | CallGetByID id =>
      r ← BookService.GetByID cache id; mret (RBook r)
  | CallGetAll author limit offset =>
      r ← BookService.GetAll cache author limit offset; mret (RBooks r)
  | CallUpdate now now' id book =>
      r ← BookService.Update cache now now' id book; mret (RBook r)
  | CallDelete now id =>
      r ← BookService.Delete cache now id; mret (RUnit r)
  end.

End Serve.

(** The effect of one cache operation of a goroutine; its error, returned
    when the server does not answer, is discarded by the goroutine. *)
Definition cache_apply (op : CacheOp) (c : Cache) : Cache :=
  if c_up c then
    match op with
    | CSet key v _ => {| c_store := <[key:=v]> (c_store c); c_up := c_up c |}
    | CDelete key => {| c_store := delete key (c_store c); c_up := c_up c |}
    end
  else c.

Record Sys := mkSys {
  s_db : Table;
  s_cache : option Cache;
  s_pending : list (list CacheOp)
}.

Inductive Action :=
| ACall (c : Call)
| ARun (i : nat)
| ALose (i : nat)
| AExpire (key : string)
| AConn (up : bool).

Definition call `{Engine} (c : Call) (s : Sys) : Reply * Sys :=
  let '(reply, db', tr) := serve (s_cache s) c (s_db s) in
  (reply, {| s_db := db'; s_cache := s_cache s;
             s_pending := s_pending s ++ spawned tr |}).

(** [ARun i]: goroutine [i] performs its next cache operation.
    [ALose i]: goroutine [i] never runs its remaining operations.
    [AExpire key]: the entry under [key] reaches its TTL.
    [AConn up]: the connection to the cache server is lost or restored. *)
Definition exec `{Engine} (a : Action) (s : Sys) : Sys :=
  match a with
  | ACall c => snd (call c s)
  | ARun i =>
      match s_pending s !! i with
      | Some (op :: rest) =>
          {| s_db := s_db s;
             s_cache := cache_apply op <$> s_cache s;
             s_pending := <[i:=rest]> (s_pending s) |}
      | _ => s
      end
  | ALose i =>
      {| s_db := s_db s; s_cache := s_cache s;
         s_pending := <[i:=[]]> (s_pending s) |}
  | AExpire key =>
      {| s_db := s_db s;
         s_cache := (fun c => {| c_store := delete key (c_store c);
                                 c_up := c_up c |}) <$> s_cache s;
         s_pending := s_pending s |}
  | AConn up =>
      {| s_db := s_db s;
         s_cache := (fun c => {| c_store := c_store c; c_up := up |})
                      <$> s_cache s;
         s_pending := s_pending s |}
  end.

Definition run `{Engine} (acts : list Action) (s : Sys) : Sys :=
  foldl (fun s a => exec a s) s acts.

(** The empty store, with or without a (then empty) cache. *)
Definition init (with_cache : bool) : Sys :=
  {| s_db := empty_table;
     s_cache := if with_cache
                then Some {| c_store := ∅; c_up := true |}
                else None;
     s_pending := [] |}.

Definition reachable `{Engine} (s : Sys) : Prop :=
  exists with_cache acts, s = run acts (init with_cache).

(** ** Vocabulary of the properties *)

Definition reply_ok (r : Reply) : bool :=
  match reply_error r with None => true | Some _ => false end.

(** The keys whose entries a call is to invalidate, spelled as the key
    scheme documents them. *)
Definition invalidated (c : Call) : list string :=
  match c with
  | CallCreate _ _ => ["books:books:getall:all"]
  | CallUpdate _ _ id _ | CallDelete _ id =>
      ["books:books:getbyid:" +:+ pretty id; "books:books:getall:all"]
  | CallGetByID _ | CallGetAll _ _ _ => []
  end.

Definition cache_reads (tr : list Event) : list string :=
  omap (fun e => match e with EvCacheGet key => Some key | _ => None end) tr.

(** Every [Get] that a call with trace [tr] made on the cache was a miss or a
    failure: no key that the call looked up holds an entry that a [Get]
    returns. *)
Definition reads_miss (cache : option Cache) (tr : list Event) : Prop :=
  forall c key, cache = Some c -> key ∈ cache_reads tr ->
    is_ok (cache_Get_Book c key) = false /\
    is_ok (cache_Get_Books c key) = false.

Section RepositoryAlone.

Context {R : Type} `{BookRepository R}.

(** The operations run against the Repository alone: the service's own
    timestamping and validation, then the repository method, and no
    cache. *)
Definition repository_alone (c : Call) (r : R) : Reply * R :=
  match c with
  | CallCreate now book =>
      let '(x, r') := repo_Create (with_times now now book) r in (RBook x, r')
  | CallGetByID id =>
      let '(x, r') := repo_GetByID id r in (RBook x, r')
  | CallGetAll author limit offset =>
      let '(x, r') := repo_GetAll author limit offset r in (RBooks x, r')
  | CallUpdate now now' id book =>
      if bool_decide (Title book = "") || bool_decide (Author book = "")
      then (RBook (Err ErrInvalidBookData), r)
      else
        let published :=
          if IsZero (PublishedAt book) then now' else PublishedAt book in
        let '(x, r') :=
          repo_Update id (with_published published
                            (with_times (CreatedAt book) now book)) r in
        (RBook x, r')
  | CallDelete now id =>
      let '(x, r') := repo_Delete now id r in (RUnit x, r')
  end.

End RepositoryAlone.

(** Results that a caller cannot tell apart: the same value, or errors of the
    same cause. *)
Definition same_result {A} (x y : result A) : Prop :=
  match x, y with
  | Ok a, Ok b => a = b
  | Err e1, Err e2 => Cause e1 = Cause e2
  | _, _ => False
  end.

Definition same_reply (x y : Reply) : Prop :=
  match x, y with
  | RBook a, RBook b => same_result a b
  | RBooks a, RBooks b => same_result a b
  | RUnit a, RUnit b => same_result a b
  | _, _ => False
  end.

Definition ids (t : Table) : list Z := map ID (rows t).

(** A single-book entry for [id]: a book of that id without deletedAt. *)
Definition entry_of (id : Z) (v : CacheVal) : Prop :=
  exists b, v = CBook b /\ ID b = id /\ DeletedAt b = None.

(** Ids are below the AUTO_INCREMENT counter, and an entry under the key of
    a single book, stored or about to be stored by a goroutine, is keyed by
    the id of a row and is a book of that id without deletedAt. *)
Record consistent (s : Sys) : Prop := {
  ids_below : forall id, id ∈ ids (s_db s) -> id < auto_increment (s_db s);
  cached_ids : forall c id v,
    s_cache s = Some c -> c_store c !! getByIDCacheKey id = Some v ->
    id ∈ ids (s_db s) /\ entry_of id v;
  pending_ids : forall task id v expires,
    task ∈ s_pending s -> CSet (getByIDCacheKey id) v expires ∈ task ->
    id ∈ ids (s_db s) /\ entry_of id v
}.

(** The engine takes every value of the INSERT for [b] as it is, as it does
    for character values within the widths of their columns and instants
    with no more than the six fractional digits that DATETIME(6) keeps. *)
Definition kept `{Engine} (b : Book) : Prop := insert_values b = inr b.

(** The book that [BookService.Update] passes to the repository: the fields
    of the call with the clock reading as updatedAt and, when publishedAt is
    the zero time, the second clock reading in its place. *)
Definition update_argument (now now' : Time) (book : Book) : Book :=
  with_published (if IsZero (PublishedAt book) then now' else PublishedAt book)
                 (with_times (CreatedAt book) now book).

(** The engine takes every value of the UPDATE for [b] as it is. *)
Definition kept_update `{Engine} (b : Book) : Prop := update_values b = inr b.

(** The cache answers a GetByID(id) of the service with a stored book. *)
Definition served_from_cache (s : Sys) (id : Z) : bool :=
  match s_cache s with
  | Some c => is_ok (cache_Get_Book c (getByIDCacheKey id))
  | None => false
  end.

(** The author filter the controller passes for a query parameter. *)
Definition author_filter (author : string) : option string :=
  if bool_decide (author <> "") then Some author else None.

(** The active rows a GetAll request with this author parameter matches,
    ordered by ascending id. *)
Definition matching `{Engine} (author : string) (t : Table) : list Book :=
  sql_select_all (author_filter author) t.

Definition books_of (r : result GetAllBooksResponse) : option (list Book) :=
  match r with
  | Ok response => Some (Books response)
  | Err _ => None
  end.

(** A page or limit value as the specification reads it: a numeral above
    zero counts, anything else is as if absent. *)
Definition claimed_param (s : string) : option Z :=
  match numeral s with
  | Some n => if 0 <? n then Some n else None
  | None => None
  end.

(** The rows the specification returns for a page and a limit. *)
Definition claimed_window (page limit : option Z) (all : list Book) : list Book :=
  match limit with
  | None => all
  | Some L =>
      match page with
      | None => take (Z.to_nat L) all
      | Some P => take (Z.to_nat L) (drop (Z.to_nat ((P - 1) * L)) all)
      end
  end.

(** Row ids are positive, below the AUTO_INCREMENT counter, and grow along
    the table. *)
Definition ids_increasing (t : Table) : Prop :=
  0 < auto_increment t /\
  (forall r, r ∈ rows t -> 0 < ID r < auto_increment t) /\
  (forall i j a b, rows t !! i = Some a -> rows t !! j = Some b ->
                   (i < j)%nat -> ID a < ID b).

(** No two rows hold the same (title, author, isbn) under the collation. *)
Definition keys_unique `{Engine} (t : Table) : Prop :=
  forall i j a b, rows t !! i = Some a -> rows t !! j = Some b ->
                  same_key a b = true -> i = j.

(** A call runs at most one statement that writes. *)
Inductive writes `{Engine} (t : Table) : Table -> Prop :=
| writes_nothing : writes t t
| writes_insert b id t' : sql_insert b t = inr (id, t') -> writes t t'
| writes_update id b t' : sql_update id b t = inr t' -> writes t t'
| writes_soft_delete id now t' : sql_soft_delete id now t = inr t' -> writes t t'.

Definition by_id (a b : Book) : Prop := ID a <= ID b.

(** The rows a listing with this author filter is about: the rows that are
    not soft-deleted and whose author equals a non-empty filter under the
    collation of the column. *)
Definition listed `{Engine} (author : option string) (r : Book) : Prop :=
  DeletedAt r = None /\
  match author with
  | Some a => a <> "" -> weight (Author r) = weight a
  | None => True
  end.

(** The books of page [p] (counted from 0) of a listing with [limit] rows a
    page, as the service returns them. *)
Definition page_books `{Engine} (cache : option Cache) (author : option string)
    (limit : Z) (t : Table) (p : nat) : list Book :=
  match fst (fst (BookService.GetAll cache author limit (Z.of_nat p * limit) t)) with
  | Ok l => l
  | Err _ => []
  end.

Definition id_lt (a b : Book) : Prop := ID a < ID b.

(** The WHERE clause of [GetAll] for an author argument. *)
Definition selects `{Engine} (author : option string) (r : Book) : bool :=
  active r &&
  match author with
  | Some a =>
      if bool_decide (a <> "") then bool_decide (weight (Author r) = weight a)
      else true
  | None => true
  end.

(** No goroutine is about to store an entry under [key]. *)
Definition no_pending_set (key : string) (s : Sys) : Prop :=
  forall task v expires, task ∈ s_pending s -> CSet key v expires ∉ task.

(** A schedule that only lets goroutines take steps. *)
Definition only_runs (acts : list Action) : bool :=
  forallb (fun a => match a with ARun _ => true | _ => false end) acts.

(** A run of [Required] checks on a fresh validator, as the controller makes
    them: each check is a field name and the value found for it. *)
Definition checked (checks : list (string * string)) : validate.Validator :=
  foldl (fun v c => validate.Required (fst c) (snd c) v) validate.New checks.

(** ** Sample data *)

(** One engine, for the examples: a server in strict SQL mode, which refuses
    a value wider than its column and the zero date; instants rounded to the
    microsecond; and a collation that holds the letters A-Z equal to a-z.
    The sample states below, and every example, witness and counterexample
    that has no [Engine] in its context, run on this engine; the theorems
    are stated for every engine. *)
Fixpoint utf8_length (s : string) : Z :=
  match s with
  | EmptyString => 0
  | String c s' =>
      (if bool_decide (Z.land (Z.of_N (Ascii.N_of_ascii c)) 192 = 128)
       then 0 else 1) + utf8_length s'
  end.

Definition lower_case (c : ascii) : ascii :=
  let n := Ascii.N_of_ascii c in
  if ((65 <=? n) && (n <=? 90))%N then Ascii.ascii_of_N (n + 32) else c.

Fixpoint fold_case (s : string) : string :=
  match s with
  | EmptyString => EmptyString
  | String c s' => String (lower_case c) (fold_case s')
  end.

#[global] Instance strict_engine : Engine := {|
  varchar n s := if utf8_length s <=? n then Some s else None;
  text s := if Z.of_nat (String.length s) <=? 65535 then Some s else None;
  datetime6 t := if IsZero t then None else Some ((t + 500) / 1000 * 1000);
  weight := fold_case
|}.

Definition untitled_book : Book :=
  {| ID := 0; Title := ""; Author := "Frank Herbert"; ISBN := "9780441013593";
     Description := "Arrakis"; PublishedAt := 700000; CreatedAt := 0;
     UpdatedAt := 0; DeletedAt := None |}.

Definition sample_book : Book :=
  {| ID := 0; Title := "Dune"; Author := "Frank Herbert"; ISBN := "9780441013593";
     Description := "Arrakis"; PublishedAt := 700000; CreatedAt := 0;
     UpdatedAt := 0; DeletedAt := None |}.

(** The store after Create(sample_book) and Delete(1). *)
Definition deleted_dune : Sys :=
  run [ACall (CallCreate 1000 sample_book); ACall (CallDelete 2000 1)]
      (init false).

Definition other_book : Book :=
  {| ID := 0; Title := "Emma"; Author := "Jane Austen"; ISBN := "9780141439587";
     Description := "Highbury"; PublishedAt := 300000; CreatedAt := 0;
     UpdatedAt := 0; DeletedAt := None |}.

(** The fields of an update that leaves publishedAt to the service. *)
Definition renamed_book : Book :=
  {| ID := 0; Title := "Dune Messiah"; Author := "Frank Herbert";
     ISBN := "9780441172696"; Description := "Sequel"; PublishedAt := 0;
     CreatedAt := 0; UpdatedAt := 0; DeletedAt := None |}.

Definition third_book : Book :=
  {| ID := 0; Title := "Children of Dune"; Author := "Frank Herbert";
     ISBN := "9780441104024"; Description := "Sequel"; PublishedAt := 900000;
     CreatedAt := 0; UpdatedAt := 0; DeletedAt := None |}.

(** The store after Create(sample_book) and Create(other_book). *)
Definition two_books : Sys :=
  run [ACall (CallCreate 1000 sample_book); ACall (CallCreate 4000 other_book)]
      (init true).

(** The store after Create(sample_book), GetByID(1), the goroutine that
    caches the book, and Delete(1), whose invalidation has not run yet. *)
Definition stale_dune : Sys :=
  run [ACall (CallCreate 1000 sample_book); ACall (CallGetByID 1); ARun 1;
       ACall (CallDelete 2000 1)]
      (init true).

Definition tombstoned_book : Book :=
  {| ID := 0; Title := "Dune"; Author := "Frank Herbert"; ISBN := "9780441013593";
     Description := "Arrakis"; PublishedAt := 700000; CreatedAt := 0;
     UpdatedAt := 0; DeletedAt := Some 5000 |}.

(** A clock reading with nanoseconds, as [time.Now()] gives them. *)
Definition a_clock_reading : Time := 63866000000123456789.

(** * Properties *)

Ltac unfold_service :=
  unfold serve, BookController.GetAll,
         BookService.Create, BookService.GetByID, BookService.GetAll,
         BookService.Update, BookService.Delete, BookService.configured,
         call_repo, cache_get, go, mbind, M_bind, mret, M_ret in *.

(** ** Cache keys and invalidation *)

Ltac fresh_key :=
  repeat (apply not_elem_of_cons; split; [solve [auto]|]); assumption.

Lemma getAllCacheKey_author (a : string) :
  a <> "" -> getAllCacheKey (Some a) = "books:books:getall:author:" +:+ a.
Proof.
  intros Ha. unfold getAllCacheKey. rewrite bool_decide_eq_true_2; done.
Qed.

Lemma getAllCacheKey_not_byid (author : option string) (id : Z) :
  getAllCacheKey author <> getByIDCacheKey id.
Proof.
  unfold getAllCacheKey, getByIDCacheKey.
  destruct author as [a|]; [case_bool_decide|]; cbn; discriminate.
Qed.

Lemma author_key_not_all (a : string) :
  "books:books:getall:author:" +:+ a <> getAllCacheKey None.
Proof. cbn. discriminate. Qed.

Lemma author_key_not_byid (a : string) (id : Z) :
  "books:books:getall:author:" +:+ a <> getByIDCacheKey id.
Proof. unfold getByIDCacheKey. cbn. discriminate. Qed.

Lemma getByIDCacheKey_inj (id1 id2 : Z) :
  getByIDCacheKey id1 = getByIDCacheKey id2 -> id1 = id2.
Proof.
  unfold getByIDCacheKey. intros Heq.
  apply (inj (String.append _)) in Heq. by apply (inj pretty) in Heq.
Qed.

Example getByIDCacheKey_42 : getByIDCacheKey 42 = "books:books:getbyid:42".
Proof. vm_compute. reflexivity. Qed.

Example getByIDCacheKey_neg : getByIDCacheKey (-7) = "books:books:getbyid:-7".
Proof. vm_compute. reflexivity. Qed.

(** C9. Keys are books:books:getbyid:<id>, books:books:getall:all and
    books:books:getall:author:<author>.  The goroutines of a call delete
    exactly: books:books:getall:all after a successful Create;
    books:books:getbyid:<id> and books:books:getall:all after a successful
    Update or Delete of id; nothing otherwise (failed call, read, or no cache
    configured).  No call deletes an author-filtered key. *)
Theorem cache_keys_and_invalidation {R : Type} `{BookRepository R}
    (cache : option Cache) (c : Call) (r : R)
    (id : Z) (ch : ascii) (a author : string) :
  getByIDCacheKey id = "books:books:getbyid:" +:+ pretty id /\
  getByIDCacheKey 42 = "books:books:getbyid:42" /\
  getAllCacheKey None = "books:books:getall:all" /\
  getAllCacheKey (Some (String ch a))
    = "books:books:getall:author:" +:+ String ch a /\
  let '(reply, _, tr) := serve cache c r in
  deleted_keys tr
    = (if reply_ok reply && BookService.configured cache
       then invalidated c else []) /\
  "books:books:getall:author:" +:+ author ∉ deleted_keys tr.
Proof.
  split; [reflexivity|]. split; [apply getByIDCacheKey_42|].
  split; [reflexivity|]. split; [reflexivity|].
  assert (Hall : "books:books:getall:author:" +:+ author
                 <> "books:books:getall:all") by (cbn; discriminate).
  assert (Hid : forall i, "books:books:getall:author:" +:+ author
                          <> getByIDCacheKey i)
    by (intros i; apply author_key_not_byid).
  assert (Hnil : "books:books:getall:author:" +:+ author ∉ @nil string)
    by apply not_elem_of_nil.
  destruct c as [now b|i|au l o|now now' i b|now i]; unfold_service.
  - destruct (repo_Create _ r) as [[b'|e] r']; destruct cache; cbn;
      (split; [reflexivity|]); fresh_key.
  - destruct cache as [c|]; cbn; [destruct (cache_Get_Book c _); cbn|];
      try (split; [reflexivity|]; fresh_key);
      destruct (repo_GetByID i r) as [[b'|e'] r']; cbn;
      (split; [reflexivity|]); fresh_key.
  - destruct cache as [c|]; cbn;
      [destruct (BookService.unpaginated l o); cbn;
       [destruct (cache_Get_Books c _); cbn|]|];
      try (split; [reflexivity|]; fresh_key);
      destruct (repo_GetAll au l o r) as [[b'|e'] r']; cbn;
      (split; [reflexivity|]); fresh_key.
  - repeat case_bool_decide; cbn;
      try (destruct cache; (split; [reflexivity|]); fresh_key).
    destruct (repo_Update _ _ r) as [[b'|e] r']; destruct cache; cbn;
      (split; [reflexivity|]); fresh_key.
  - destruct (repo_Delete _ _ r) as [[b'|e] r']; destruct cache; cbn;
      (split; [reflexivity|]); fresh_key.
Qed.

(** C10. An author pointer to the empty string is no filter: the repository
    runs the same query, the service derives the same cache key, and a
    GetAll call returns the same result, reads the same cache key and starts
    the same goroutines as with a nil author, for every limit and offset. *)
Theorem empty_author_is_no_filter {E : Engine}
    (cache : option Cache) (limit offset : Z) (t : Table) :
  getAllCacheKey (Some "") = getAllCacheKey None /\
  mysql.GetAll (Some "") limit offset t = mysql.GetAll None limit offset t /\
  let '(r1, t1, tr1) := BookService.GetAll cache (Some "") limit offset t in
  let '(r2, t2, tr2) := BookService.GetAll cache None limit offset t in
  r1 = r2 /\ t1 = t2 /\
  cache_reads tr1 = cache_reads tr2 /\ spawned tr1 = spawned tr2.
Proof.
  split; [reflexivity|]. split; [reflexivity|].
  unfold_service. cbn.
  destruct cache as [c|]; cbn; [|done].
  destruct (BookService.unpaginated limit offset); cbn; [|done].
  destruct (cache_Get_Books c _); cbn; done.
Qed.

(** ** What the engine refuses *)

Ltac unfold_mysql :=
  unfold repo_Create, repo_GetByID, repo_GetAll, repo_Update, repo_Delete,
         mysql_BookRepository,
         mysql.Update, mysql.Delete, mysql.Create, mysql.GetByID, mysql.GetAll,
         mysql.is_duplicate_key in *.

Ltac unfold_sql := unfold mbind, sql_bind, mret, sql_ret in *.

Lemma same_key_inserted_row {E : Engine} (id : Z) (v : Book) (l : list Book) :
  existsb (same_key (inserted_row id v)) l = existsb (same_key v) l.
Proof. reflexivity. Qed.

Lemma key_held_iff {E : Engine} (b : Book) (l : list Book) :
  existsb (same_key b) l = true <-> exists r, r ∈ l /\ same_key b r = true.
Proof.
  rewrite existsb_exists. split; intros (r & Hr & Hk); exists r;
    (split; [by apply list_elem_of_In | done]).
Qed.

(** A refused value is not a duplicate key. *)
Lemma insert_values_refused {E : Engine} (b : Book) (e : sql_error) :
  insert_values b = inl e -> mysql.is_duplicate_key e = false.
Proof.
  unfold insert_values, char_value, datetime_value. unfold_sql.
  repeat match goal with
         | |- context [match ?x with Some _ => _ | None => _ end] =>
             destruct x; cbn
         end;
    first [discriminate | intros [= <-]; reflexivity].
Qed.

Lemma update_values_refused {E : Engine} (b : Book) (e : sql_error) :
  update_values b = inl e -> mysql.is_duplicate_key e = false.
Proof.
  unfold update_values, char_value, datetime_value. unfold_sql.
  repeat match goal with
         | |- context [match ?x with Some _ => _ | None => _ end] =>
             destruct x; cbn
         end;
    first [discriminate | intros [= <-]; reflexivity].
Qed.

(** ** Validation *)

Lemma Update_rejects_empty {R : Type} `{BookRepository R}
    (cache : option Cache) (now now' : Time) (id : Z) (book : Book) (r : R) :
  Title book = "" \/ Author book = "" ->
  exists e, BookService.Update cache now now' id book r = (Err e, r, [])
            /\ Cause e = ErrInvalidBookData.
Proof.
  intros Hempty. unfold_service.
  destruct (decide (Title book = "")) as [Ht|Ht].
  - rewrite bool_decide_eq_true_2 by done. eauto.
  - rewrite bool_decide_eq_false_2 by done.
    destruct Hempty as [?|Ha]; [done|].
    rewrite bool_decide_eq_true_2 by done. eauto.
Qed.

Lemma Create_always_calls_repository {R : Type} `{BookRepository R}
    (cache : option Cache) (now : Time) (book : Book) (r : R) :
  exists tr, snd (BookService.Create cache now book r)
             = EvRepo (RCreate (with_times now now book)) :: tr.
Proof.
  unfold_service.
  destruct (repo_Create _ r) as [[b'|e] r']; destruct cache; cbn; eauto.
Qed.

(** C2, at Create. BookService.Create checks neither title nor author: with
    an empty title it calls Repository.Create, its one collaborator call, and
    never fails with InvalidData; on an engine that accepts the values the
    row with the empty title is stored and the created book is returned. *)
Theorem Create_empty_title_reaches_repository {E : Engine} :
  let '(r, t', tr) := BookService.Create None 1000 untitled_book empty_table in
  tr = [EvRepo (RCreate (with_times 1000 1000 untitled_book))] /\
  collaborator_calls tr = 1%nat /\
  ~ fails_with r ErrInvalidBookData /\
  match insert_values (with_times 1000 1000 untitled_book) with
  | inr v =>
      r = Ok (set_id 1 (with_times 1000 1000 untitled_book)) /\
      rows t' = [inserted_row 1 v]
  | inl e => r = Err (WithStack (WithStack (ErrSQL e))) /\ t' = empty_table
  end.
Proof.
  unfold BookService.Create, BookService.configured, call_repo, go,
    mbind, M_bind, mret, M_ret.
  unfold repo_Create, mysql_BookRepository, mysql.Create, sql_insert.
  unfold mbind, sql_bind.
  destruct (insert_values _) as [e|v] eqn:Hvalues.
  - rewrite (insert_values_refused _ _ Hvalues). cbn.
    repeat split; try done. by intros (e' & [= <-] & Hcause).
  - cbn. repeat split; try done. by intros (e' & [= <-] & Hcause).
Qed.

(** On the engine of the examples the row is stored as it was passed. *)
Example Create_empty_title_is_stored :
  let '(r, t', tr) := BookService.Create None 1000 untitled_book empty_table in
  r = Ok (set_id 1 (with_times 1000 1000 untitled_book)) /\
  rows t' = [inserted_row 1 (with_times 1000 1000 untitled_book)] /\
  tr = [EvRepo (RCreate (with_times 1000 1000 untitled_book))] /\
  collaborator_calls tr = 1%nat.
Proof. vm_compute. done. Qed.

(** The API validates before it reaches the service. *)
Lemma Controller_Create_rejects_empty {R : Type} `{BookRepository R}
    (cache : option Cache) (parse_date : string -> option Time)
    (now : Time) (req : CreateBookRequest) (r : R) :
  req_Title req = "" \/ req_Author req = "" ->
  exists msgs, BookController.Create cache parse_date now (Ok req) r
               = (Err (ErrValidation msgs), r, []).
Proof.
  intros Hempty. unfold BookController.Create.
  destruct (validate.HasErrors _) eqn:Hv; [unfold mret, M_ret; eauto|].
  exfalso. revert Hv. unfold validate.HasErrors, validate.Required, validate.New.
  destruct Hempty as [-> | ->]; cbn;
    repeat case_bool_decide; cbn in *; rewrite ?length_app in *; cbn in *;
    try lia; try congruence.
Qed.

(** ** The cache is an optimisation layer *)

Lemma with_published_same (b : Book) :
  with_published (PublishedAt b) b = b.
Proof. by destruct b. Qed.

(** C3. When every [Get] that a call makes on the cache is a miss or a
    failure, whatever else the cache holds, or when no cache is configured,
    the operation returns what it returns against the repository alone (same
    value, or an error of the same cause) and leaves the repository in the
    same state; that is also exactly the reply of the service without a
    cache.  Whatever the cache holds, an error returned to the caller has the
    cause of the error of the repository-alone run, so it never originates
    in the cache. *)
Theorem cache_is_transparent {R : Type} `{BookRepository R}
    (cache : option Cache) (c : Call) (r : R) :
  let '(reply, r', tr) := serve cache c r in
  (forall e, reply_error reply = Some e ->
     exists e0, reply_error (fst (repository_alone c r)) = Some e0 /\
                Cause e = Cause e0) /\
  (reads_miss cache tr ->
     same_reply reply (fst (repository_alone c r)) /\
     r' = snd (repository_alone c r) /\
     (reply, r') = fst (serve None c r)).
Proof.
  destruct c as [now b|id|au l o|now now' id b|now id];
    unfold_service; cbn.
  - destruct (repo_Create _ r) as [[b'|e] r']; destruct cache; cbn;
      (split; [intros ? [= <-]; eauto | done]).
  - destruct cache as [c|]; cbn.
    + destruct (cache_Get_Book c _) as [hit|miss] eqn:Hget; cbn.
      * split; [done|]. intros Hmiss.
        destruct (Hmiss c (getByIDCacheKey id) eq_refl) as [Hb _];
          [apply list_elem_of_here|].
        rewrite Hget in Hb. done.
      * destruct (repo_GetByID id r) as [[b'|e] r']; cbn;
          (split; [intros ? [= <-]; eauto | done]).
    + destruct (repo_GetByID id r) as [[b'|e] r']; cbn;
        (split; [intros ? [= <-]; eauto | done]).
  - destruct cache as [c|]; cbn.
    + destruct (BookService.unpaginated l o); cbn.
      * destruct (cache_Get_Books c _) as [hit|miss] eqn:Hget; cbn.
        -- split; [done|]. intros Hmiss.
           destruct (Hmiss c (getAllCacheKey au) eq_refl) as [_ Hb];
             [apply list_elem_of_here|].
           rewrite Hget in Hb. done.
        -- destruct (repo_GetAll au l o r) as [[b'|e] r']; cbn;
             (split; [intros ? [= <-]; eauto | done]).
      * destruct (repo_GetAll au l o r) as [[b'|e] r']; cbn;
          (split; [intros ? [= <-]; eauto | done]).
    + destruct (repo_GetAll au l o r) as [[b'|e] r']; cbn;
        (split; [intros ? [= <-]; eauto | done]).
  - destruct (bool_decide (Title b = "")); cbn;
      [split; [intros ? [= <-]; eauto | done]|].
    destruct (bool_decide (Author b = "")); cbn;
      [split; [intros ? [= <-]; eauto | done]|].
    assert (Hbook :
      (if IsZero (PublishedAt b)
       then with_published now' (with_times (CreatedAt b) now b)
       else with_times (CreatedAt b) now b)
      = with_published (if IsZero (PublishedAt b) then now' else PublishedAt b)
                       (with_times (CreatedAt b) now b)).
    { destruct (IsZero (PublishedAt b)); [done|].
      by rewrite <- (with_published_same (with_times _ _ _)) at 1. }
    rewrite Hbook.
    destruct (repo_Update _ _ r) as [[b'|e] r']; destruct cache; cbn;
      (split; [intros ? [= <-]; eauto | done]).
  - destruct (repo_Delete _ _ r) as [[b'|e] r']; destruct cache; cbn;
      (split; [intros ? [= <-]; eauto | try done]).
    all: intros _; by destruct b'.
Qed.

(** A lookup that misses in a cache that holds an entry for another book. *)
Lemma cache_is_transparent_witness :
  let '(reply, t', tr) :=
    serve (s_cache stale_dune) (CallGetByID 2) (s_db stale_dune) in
  is_Some (s_cache stale_dune ≫= fun c => c_store c !! getByIDCacheKey 1) /\
  reads_miss (s_cache stale_dune) tr /\
  same_reply reply (fst (repository_alone (CallGetByID 2) (s_db stale_dune))).
Proof.
  pose proof (cache_is_transparent (s_cache stale_dune) (CallGetByID 2)
                (s_db stale_dune)) as Hthm.
  destruct (serve (s_cache stale_dune) (CallGetByID 2) (s_db stale_dune))
    as [[reply t'] tr] eqn:Hcall.
  assert (Htr : tr = [EvCacheGet (getByIDCacheKey 2);
                      EvRepo (RGetByID 2)])
    by (vm_compute in Hcall; by inversion Hcall).
  assert (Hmiss : reads_miss (s_cache stale_dune) tr).
  { intros c key Hc Hkey. subst tr. cbn in Hkey.
    apply list_elem_of_singleton in Hkey as ->.
    vm_compute in Hc. injection Hc as <-. split; vm_compute; reflexivity. }
  split; [vm_compute; eauto|]. split; [exact Hmiss|].
  destruct Hthm as [_ Hthm]. exact (proj1 (Hthm Hmiss)).
Defined.

(** ** The unique key *)

Lemma Create_fresh_key {E : Engine}
    (cache : option Cache) (now : Time) (book v : Book) (t : Table) :
  insert_values (with_times now now book) = inr v ->
  existsb (same_key v) (rows t) = false ->
  BookService.Create cache now book t
  = (Ok (set_id (auto_increment t) (with_times now now book)),
     {| rows := rows t ++ [inserted_row (auto_increment t) v];
        auto_increment := auto_increment t + 1 |},
     EvRepo (RCreate (with_times now now book))
       :: (if BookService.configured cache
           then [EvGo [CDelete (getAllCacheKey None)]] else [])).
Proof.
  intros Hvalues Hfresh. unfold_service. unfold_mysql. unfold sql_insert.
  rewrite Hvalues. unfold_sql.
  rewrite same_key_inserted_row, Hfresh. by destruct cache.
Qed.

(** What a successful Create stored and returned. *)
Lemma Create_ok {E : Engine} (cache : option Cache) (now : Time)
    (book created : Book) (t t' : Table) (tr : list Event) :
  BookService.Create cache now book t = (Ok created, t', tr) ->
  exists v,
    insert_values (with_times now now book) = inr v /\
    existsb (same_key v) (rows t) = false /\
    created = set_id (auto_increment t) (with_times now now book) /\
    t' = {| rows := rows t ++ [inserted_row (auto_increment t) v];
            auto_increment := auto_increment t + 1 |}.
Proof.
  unfold_service. unfold_mysql. unfold sql_insert. unfold_sql.
  destruct (insert_values _) as [e|v]; cbn.
  { by destruct (match e with MySQLError _ => _ | _ => _ end). }
  rewrite same_key_inserted_row.
  destruct (existsb (same_key v) (rows t)) eqn:Hfresh; cbn; [done|].
  intros Heq. exists v.
  destruct cache; cbn in Heq; by inversion Heq.
Qed.

Lemma deleted_dune_rows :
  rows (s_db deleted_dune)
  = [deleted_row 2000 (inserted_row 1 (with_times 1000 1000 sample_book))].
Proof. vm_compute. reflexivity. Qed.

(** C1, as stated, fails: after Create(sample_book) and Delete(1) the only
    row that holds the triple of sample_book is soft-deleted, and Create of
    the same triple is still refused. *)
Lemma deleted_row_blocks_create :
  ~ (forall (t : Table) (now : Time) (book : Book),
       (forall r, r ∈ rows t -> same_key book r = true -> active r = false) ->
       is_ok (fst (fst (BookService.Create None now book t))) = true).
Proof.
  intros Hclaim.
  specialize (Hclaim (s_db deleted_dune) 3000 sample_book).
  rewrite deleted_dune_rows in Hclaim.
  assert (Hdeleted : forall r,
    r ∈ [deleted_row 2000 (inserted_row 1 (with_times 1000 1000 sample_book))] ->
    same_key sample_book r = true -> active r = false).
  { intros r Hr _. apply list_elem_of_singleton in Hr. by subst r. }
  specialize (Hclaim Hdeleted). vm_compute in Hclaim. discriminate.
Qed.

(** C1, amended. Creating an entity whose values the engine accepts and whose
    (title, author, isbn) triple, as the columns take it, equals under the
    collation of the table that of any stored entity, active or
    soft-deleted, fails with AlreadyExists, leaves the table unchanged and
    starts no invalidation: the unique key covers all rows, whatever their
    deletedAt. *)
Theorem Create_unique_among_all_rows {E : Engine}
    (cache : option Cache) (now : Time) (book v : Book) (t : Table) :
  insert_values (with_times now now book) = inr v ->
  (exists r, r ∈ rows t /\ same_key v r = true) ->
  let '(res, t', tr) := BookService.Create cache now book t in
  fails_with res ErrBookAlreadyExists /\ t' = t /\ spawned tr = [].
Proof.
  intros Hvalues Hheld. apply key_held_iff in Hheld.
  unfold_service. unfold_mysql. unfold sql_insert.
  rewrite Hvalues. unfold_sql.
  rewrite same_key_inserted_row, Hheld. cbn.
  split; [|done]. by exists (WithStack ErrBookAlreadyExists).
Qed.

Lemma Create_unique_among_all_rows_witness :
  insert_values (with_times 3000 3000 sample_book)
  = inr (with_times 3000 3000 sample_book) /\
  (exists r, r ∈ rows (s_db deleted_dune) /\ active r = false /\
             same_key (with_times 3000 3000 sample_book) r = true) /\
  fails_with (fst (fst (BookService.Create None 3000 sample_book
                                           (s_db deleted_dune))))
             ErrBookAlreadyExists.
Proof.
  assert (Hvalues : insert_values (with_times 3000 3000 sample_book)
                    = inr (with_times 3000 3000 sample_book))
    by (vm_compute; reflexivity).
  assert (Hheld : exists r, r ∈ rows (s_db deleted_dune) /\ active r = false /\
                            same_key (with_times 3000 3000 sample_book) r = true).
  { eexists. rewrite deleted_dune_rows. split; [apply list_elem_of_here|].
    split; reflexivity. }
  split; [exact Hvalues|]. split; [exact Hheld|].
  assert (Hheld' : exists r, r ∈ rows (s_db deleted_dune) /\
                     same_key (with_times 3000 3000 sample_book) r = true).
  { destruct Hheld as (r & Hr & _ & Hk). eauto. }
  pose proof (Create_unique_among_all_rows None 3000 sample_book _
                (s_db deleted_dune) Hvalues Hheld') as Hthm.
  destruct (BookService.Create None 3000 sample_book (s_db deleted_dune))
    as [[res t'] tr].
  exact (proj1 Hthm).
Defined.

(** ** Frames: what a statement leaves alone *)

Lemma targets_inactive (id : Z) (r : Book) :
  is_Some (DeletedAt r) -> targets id r = false.
Proof.
  intros [d Hd]. unfold targets, active. rewrite Hd.
  rewrite (bool_decide_eq_false_2 (Some d = None)) by done.
  apply andb_false_r.
Qed.

Lemma targets_other (id : Z) (r : Book) :
  ID r <> id -> targets id r = false.
Proof.
  intros Hne. unfold targets. by rewrite bool_decide_eq_false_2.
Qed.

Lemma no_target (id : Z) (l : list Book) (r : Book) :
  existsb (targets id) l = false -> r ∈ l -> targets id r = false.
Proof.
  intros Hnone Hr. destruct (targets id r) eqn:Htarget; [|done].
  rewrite <- Hnone. symmetry. apply existsb_exists.
  exists r. split; [by apply list_elem_of_In | done].
Qed.

(** The columns take the values of the statement one by one. *)
Lemma insert_values_spec {E : Engine} (b v : Book) :
  insert_values b = inr v <->
  ID v = ID b /\ DeletedAt v = DeletedAt b /\
  varchar 255 (Title b) = Some (Title v) /\
  varchar 255 (Author b) = Some (Author v) /\
  varchar 13 (ISBN b) = Some (ISBN v) /\
  text (Description b) = Some (Description v) /\
  datetime6 (PublishedAt b) = Some (PublishedAt v) /\
  datetime6 (CreatedAt b) = Some (CreatedAt v) /\
  datetime6 (UpdatedAt b) = Some (UpdatedAt v).
Proof.
  unfold insert_values, char_value, datetime_value. unfold_sql. split.
  - repeat match goal with
           | |- context [match ?x with Some _ => _ | None => _ end] =>
               destruct x; cbn; [|discriminate]
           end.
    by intros [= <-].
  - intros (Hid & Hdel & -> & -> & -> & -> & -> & -> & ->). cbn.
    destruct v. cbn in *. by subst.
Qed.

Lemma update_values_spec {E : Engine} (b v : Book) :
  update_values b = inr v <->
  ID v = ID b /\ CreatedAt v = CreatedAt b /\ DeletedAt v = DeletedAt b /\
  varchar 255 (Title b) = Some (Title v) /\
  varchar 255 (Author b) = Some (Author v) /\
  varchar 13 (ISBN b) = Some (ISBN v) /\
  text (Description b) = Some (Description v) /\
  datetime6 (PublishedAt b) = Some (PublishedAt v) /\
  datetime6 (UpdatedAt b) = Some (UpdatedAt v).
Proof.
  unfold update_values, char_value, datetime_value. unfold_sql. split.
  - repeat match goal with
           | |- context [match ?x with Some _ => _ | None => _ end] =>
               destruct x; cbn; [|discriminate]
           end.
    by intros [= <-].
  - intros (Hid & Hcreated & Hdel & -> & -> & -> & -> & -> & ->). cbn.
    destruct v. cbn in *. by subst.
Qed.

Section Statements.

Context {E : Engine}.
Variables (t t' : Table) (i : nat) (r : Book).
Hypothesis Hrow : rows t !! i = Some r.

Lemma sql_insert_keeps (b : Book) (id : Z) :
  sql_insert b t = inr (id, t') -> rows t' !! i = Some r.
Proof.
  unfold sql_insert. unfold_sql.
  destruct (insert_values b) as [e|v]; [done|].
  destruct (existsb _ _); [done|].
  intros [= _ <-]. cbn. by apply lookup_app_l_Some.
Qed.

Lemma sql_update_row (id : Z) (b : Book) :
  sql_update id b t = inr t' ->
  if targets id r
  then exists v, update_values b = inr v /\ rows t' !! i = Some (updated_row v r)
  else rows t' !! i = Some r.
Proof.
  assert (Hin : r ∈ rows t) by (apply list_elem_of_lookup; eauto).
  unfold sql_update. destruct (existsb (targets id) (rows t)) eqn:Hany.
  - unfold_sql. destruct (update_values b) as [e|v]; [discriminate|].
    destruct (existsb (fun r0 => same_key v r0 && _) (rows t));
      [discriminate|].
    intros [= <-]. cbn.
    rewrite list_lookup_fmap, Hrow. cbn.
    destruct (targets id r); eauto.
  - intros [= <-]. by rewrite (no_target id (rows t) r).
Qed.

Lemma sql_soft_delete_row (id : Z) (now : Time) :
  sql_soft_delete id now t = inr t' ->
  if targets id r
  then exists d, datetime6 now = Some d /\ rows t' !! i = Some (deleted_row d r)
  else rows t' !! i = Some r.
Proof.
  assert (Hin : r ∈ rows t) by (apply list_elem_of_lookup; eauto).
  unfold sql_soft_delete. destruct (existsb (targets id) (rows t)) eqn:Hany.
  - unfold datetime_value. unfold_sql.
    destruct (datetime6 now) as [d|]; [|discriminate]. intros [= <-]. cbn.
    rewrite list_lookup_fmap, Hrow. cbn.
    destruct (targets id r); eauto.
  - intros [= <-]. by rewrite (no_target id (rows t) r).
Qed.

End Statements.

(** What a successful UPDATE of [Update] wrote. *)
Lemma sql_update_rows {E : Engine} (id : Z) (b : Book) (t t' : Table) :
  sql_update id b t = inr t' ->
  (existsb (targets id) (rows t) = false /\ t' = t) \/
  exists v, existsb (targets id) (rows t) = true /\ update_values b = inr v /\
    existsb (fun r => same_key v r && negb (bool_decide (ID r = id))) (rows t)
    = false /\
    t' = {| rows := map (fun r => if targets id r then updated_row v r else r)
                        (rows t);
            auto_increment := auto_increment t |}.
Proof.
  unfold sql_update. destruct (existsb (targets id) (rows t)).
  - unfold_sql. destruct (update_values b) as [e|v]; [discriminate|].
    destruct (existsb (fun r0 => same_key v r0 && _) (rows t)) eqn:Hconflict;
      [discriminate|].
    intros [= <-]. right. eauto.
  - intros [= <-]. by left.
Qed.

(** What a successful UPDATE of [Delete] wrote. *)
Lemma sql_soft_delete_rows {E : Engine} (id : Z) (now : Time) (t t' : Table) :
  sql_soft_delete id now t = inr t' ->
  (existsb (targets id) (rows t) = false /\ t' = t) \/
  exists d, existsb (targets id) (rows t) = true /\ datetime6 now = Some d /\
    t' = {| rows := map (fun r => if targets id r then deleted_row d r else r)
                        (rows t);
            auto_increment := auto_increment t |}.
Proof.
  unfold sql_soft_delete. destruct (existsb (targets id) (rows t)).
  - unfold datetime_value. unfold_sql.
    destruct (datetime6 now) as [d|]; [|done]. intros [= <-]. right. eauto.
  - intros [= <-]. by left.
Qed.

Lemma sql_update_shape {E : Engine} (id : Z) (b : Book) (t t' : Table) :
  sql_update id b t = inr t' ->
  auto_increment t' = auto_increment t /\ length (rows t') = length (rows t).
Proof.
  intros Hup. apply sql_update_rows in Hup as [[_ ->]|(v & _ & _ & _ & ->)]; [done|].
  cbn. by rewrite length_map.
Qed.

Lemma mysql_Update_ok {E : Engine} (id : Z) (book updated : Book) (t t' : Table) :
  mysql.Update id book t = (Ok updated, t') ->
  exists existing,
    sql_select_by_id id t = inr existing /\
    sql_update id book t = inr t' /\
    updated = mysql.updatedBook existing book.
Proof.
  unfold_mysql. destruct (sql_select_by_id id t) as [[]|existing]; try done.
  destruct (sql_update id book t) as [e|t2].
  - destruct e; try case_bool_decide; done.
  - intros [= <- <-]. eauto.
Qed.

(** The book that the service passes to Repository.Update. *)
Lemma Update_ok {R : Type} `{BookRepository R}
    (cache : option Cache) (now now' : Time) (id : Z)
    (book updated : Book) (r r' : R) (tr : list Event) :
  BookService.Update cache now now' id book r = (Ok updated, r', tr) ->
  exists stamped,
    Title stamped = Title book /\ Author stamped = Author book /\
    ISBN stamped = ISBN book /\ Description stamped = Description book /\
    UpdatedAt stamped = now /\
    PublishedAt stamped
      = (if IsZero (PublishedAt book) then now' else PublishedAt book) /\
    repo_Update id stamped r = (Ok updated, r').
Proof.
  unfold_service.
  destruct (bool_decide (Title book = "")); [done|].
  destruct (bool_decide (Author book = "")); [done|].
  match goal with |- context [repo_Update id ?b r] => set (stamped := b) end.
  destruct (repo_Update id stamped r) as [[b'|e] r2] eqn:Hup; [|done].
  intros Heq. exists stamped.
  assert (Hres : b' = updated /\ r2 = r')
    by (destruct cache; cbn in Heq; by inversion Heq).
  destruct Hres as [-> ->].
  repeat split; try exact Hup; subst stamped; cbn;
    by destruct (IsZero (PublishedAt book)).
Qed.

(** C8. A successful Update(id, fields) keeps the number of rows and the
    AUTO_INCREMENT counter; every row keeps its id, createdAt and deletedAt;
    a row with another id is unchanged; and a row that changes carries the
    title, author, isbn, description, publishedAt and updatedAt of the call,
    each as its column takes it. *)
Theorem Update_frame {E : Engine}
    (cache : option Cache) (now now' : Time) (id : Z) (book updated : Book)
    (t t' : Table) (tr : list Event) :
  BookService.Update cache now now' id book t = (Ok updated, t', tr) ->
  auto_increment t' = auto_increment t /\
  length (rows t') = length (rows t) /\
  forall i r, rows t !! i = Some r ->
    exists r', rows t' !! i = Some r' /\
      ID r' = ID r /\ CreatedAt r' = CreatedAt r /\ DeletedAt r' = DeletedAt r /\
      (ID r <> id -> r' = r) /\
      (r' <> r ->
         varchar 255 (Title book) = Some (Title r') /\
         varchar 255 (Author book) = Some (Author r') /\
         varchar 13 (ISBN book) = Some (ISBN r') /\
         text (Description book) = Some (Description r') /\
         datetime6 now = Some (UpdatedAt r') /\
         datetime6 (if IsZero (PublishedAt book) then now' else PublishedAt book)
         = Some (PublishedAt r')).
Proof.
  intros Hup. apply Update_ok in Hup as (stamped & Ht & Ha & Hi & Hd & Hu & Hp & Hup).
  apply mysql_Update_ok in Hup as (existing & _ & Hup & _).
  destruct (sql_update_shape _ _ _ _ Hup) as [Hauto Hlen].
  split; [done|]. split; [done|].
  intros i r Hrow. pose proof (sql_update_row t t' i r Hrow id stamped Hup) as Hr.
  destruct (targets id r) eqn:Htarget.
  - destruct Hr as (v & Hv & Hr). eexists. split; [exact Hr|].
    apply update_values_spec in Hv
      as (_ & _ & _ & Hvt & Hva & Hvi & Hvd & Hvp & Hvu).
    rewrite Ht in Hvt. rewrite Ha in Hva. rewrite Hi in Hvi.
    rewrite Hd in Hvd. rewrite Hp in Hvp. rewrite Hu in Hvu.
    repeat split; try done.
    intros Hne. by rewrite targets_other in Htarget.
  - exists r. repeat split; done.
Qed.

Lemma Update_frame_witness :
  let '(res, t', _) :=
    BookService.Update None 5000 6000 1 renamed_book (s_db two_books) in
  is_ok res = true /\
  auto_increment t' = auto_increment (s_db two_books) /\
  length (rows t') = length (rows (s_db two_books)).
Proof.
  destruct (BookService.Update None 5000 6000 1 renamed_book (s_db two_books))
    as [[[updated|e] t'] tr] eqn:Hcall.
  - pose proof (Update_frame _ _ _ _ _ _ _ _ _ Hcall) as (Hauto & Hlen & _).
    done.
  - vm_compute in Hcall. discriminate.
Defined.

(** ** What a call does to the table *)

Lemma serve_writes {E : Engine} (cache : option Cache) (c : Call) (t : Table) :
  writes t (snd (fst (serve cache c t))).
Proof.
  destruct c as [now b|id|au l o|now now' id b|now id];
    unfold_service; unfold_mysql.
  - destruct (sql_insert _ t) as [e|[id t']] eqn:Hins; cbn.
    + destruct (match e with MySQLError _ => _ | _ => _ end); constructor.
    + destruct cache; cbn; by eapply writes_insert.
  - destruct cache as [c|]; cbn;
      [destruct (cache_Get_Book c _); cbn; [constructor|]|];
      destruct (sql_select_by_id id t) as [[]|]; constructor.
  - destruct cache as [c|]; cbn;
      [destruct (BookService.unpaginated l o); cbn;
       [destruct (cache_Get_Books c _); cbn|]|]; constructor.
  - destruct (bool_decide (Title b = "")); [constructor|].
    destruct (bool_decide (Author b = "")); [constructor|].
    destruct (sql_select_by_id id t) as [[]|existing]; try constructor.
    match goal with |- context [sql_update id ?b t] =>
      destruct (sql_update id b t) as [e|t'] eqn:Hup end; cbn.
    + destruct (match e with MySQLError _ => _ | _ => _ end); constructor.
    + destruct cache; cbn; by eapply writes_update.
  - destruct (sql_select_by_id id t) as [[]|existing]; try constructor.
    destruct (sql_soft_delete id now t) as [e|t'] eqn:Hdelete; cbn;
      [constructor|].
    destruct cache; cbn; by eapply writes_soft_delete.
Qed.

Lemma exec_writes {E : Engine} (a : Action) (s : Sys) :
  writes (s_db s) (s_db (exec a s)).
Proof.
  destruct a as [c|i|i|key|up]; cbn; try constructor.
  - unfold call. pose proof (serve_writes (s_cache s) c (s_db s)) as Hw.
    by destruct (serve (s_cache s) c (s_db s)) as [[reply db'] tr].
  - destruct (s_pending s !! i) as [[|op rest]|]; constructor.
Qed.

(** An invariant of the three writing statements holds in every reachable
    state. *)
Lemma reachable_invariant {E : Engine} (P : Table -> Prop) :
  P empty_table ->
  (forall t t', writes t t' -> P t -> P t') ->
  forall s, reachable s -> P (s_db s).
Proof.
  intros Hinit Hstep s (with_cache & acts & ->).
  assert (Hrun : forall acts s0, P (s_db s0) -> P (s_db (run acts s0))).
  { clear acts. induction acts as [|a acts IH]; intros s0 Hs0; [done|].
    cbn. apply IH. eapply Hstep; [apply exec_writes|done]. }
  apply Hrun. by destruct with_cache.
Qed.

(** ** Deleted is terminal *)

Lemma writes_keeps_deleted {E : Engine} (t t' : Table) (i : nat) (r : Book) :
  writes t t' ->
  rows t !! i = Some r -> is_Some (DeletedAt r) -> rows t' !! i = Some r.
Proof.
  intros [|b id t2 Hins|id b t2 Hup|id now t2 Hdel] Hrow Hdeleted; [done| | |].
  - by eapply sql_insert_keeps.
  - pose proof (sql_update_row t t2 i r Hrow id b Hup) as Hr.
    by rewrite targets_inactive in Hr.
  - pose proof (sql_soft_delete_row t t2 i r Hrow id now Hdel) as Hr.
    by rewrite targets_inactive in Hr.
Qed.

Lemma exec_keeps_deleted {E : Engine} (a : Action) (s : Sys) (i : nat) (r : Book) :
  rows (s_db s) !! i = Some r -> is_Some (DeletedAt r) ->
  rows (s_db (exec a s)) !! i = Some r.
Proof. apply writes_keeps_deleted, exec_writes. Qed.

Lemma run_keeps_deleted {E : Engine}
    (acts : list Action) (s : Sys) (i : nat) (r : Book) :
  rows (s_db s) !! i = Some r -> is_Some (DeletedAt r) ->
  rows (s_db (run acts s)) !! i = Some r.
Proof.
  revert s. induction acts as [|a acts IH]; intros s Hrow Hdel; [done|].
  cbn. apply IH; [|done]. by apply exec_keeps_deleted.
Qed.

(** C6. In every state reached from the empty store by calls of Create,
    GetByID, GetAll, Update and Delete (and by the goroutines and cache
    events between them), a row whose deletedAt is set stays, in every later
    state, the same row with the same fields: deletedAt is never cleared and
    nothing modifies the row. *)
Theorem deleted_is_terminal {E : Engine}
    (with_cache : bool) (before after : list Action) (i : nat) (r : Book) :
  rows (s_db (run before (init with_cache))) !! i = Some r ->
  is_Some (DeletedAt r) ->
  rows (s_db (run after (run before (init with_cache)))) !! i = Some r.
Proof. apply run_keeps_deleted. Qed.

Lemma deleted_is_terminal_witness :
  rows (s_db (run [ACall (CallUpdate 5000 5001 1 renamed_book);
                   ACall (CallDelete 6000 1);
                   ACall (CallCreate 7000 sample_book)] deleted_dune)) !! 0%nat
  = Some (deleted_row 2000 (inserted_row 1 (with_times 1000 1000 sample_book))).
Proof.
  apply (deleted_is_terminal false
           [ACall (CallCreate 1000 sample_book); ACall (CallDelete 2000 1)]).
  - vm_compute. reflexivity.
  - cbn. eauto.
Defined.

(** ** What the cache can hold *)

Lemma sql_select_by_id_found (id : Z) (t : Table) (r : Book) :
  sql_select_by_id id t = inr r -> r ∈ rows t /\ ID r = id /\ DeletedAt r = None.
Proof.
  unfold sql_select_by_id.
  destruct (find _ (rows t)) as [r0|] eqn:Hfind; [|done].
  intros [= <-]. apply find_some in Hfind as [Hin Hp].
  apply andb_true_iff in Hp as [Hid Hact].
  apply bool_decide_eq_true in Hid. apply bool_decide_eq_true in Hact.
  split; [by apply list_elem_of_In | done].
Qed.

(** A statement either leaves ids and counter alone or appends the counter's
    value as a new id. *)
Lemma writes_ids {E : Engine} (t t' : Table) :
  writes t t' ->
  (ids t' = ids t /\ auto_increment t' = auto_increment t) \/
  (ids t' = ids t ++ [auto_increment t] /\
   auto_increment t' = auto_increment t + 1).
Proof.
  intros [|b id t2 Hins|id b t2 Hup|id now t2 Hdel]; [by left| | |].
  - right. unfold sql_insert in Hins. unfold_sql.
    destruct (insert_values b) as [e|v]; [done|].
    destruct (existsb _ _); [done|]. injection Hins as <- <-.
    split; [|done]. unfold ids. cbn. by rewrite fmap_app.
  - left. apply sql_update_rows in Hup as [[_ ->]|(v & _ & _ & _ & ->)]; [done|].
    split; [|done]. unfold ids. cbn. rewrite <- list_fmap_compose.
    apply list_fmap_ext. intros _ r _. cbn. by destruct (targets id r).
  - left. apply sql_soft_delete_rows in Hdel as [[_ ->]|(d & _ & _ & ->)]; [done|].
    split; [|done]. unfold ids. cbn. rewrite <- list_fmap_compose.
    apply list_fmap_ext. intros _ r _. cbn. by destruct (targets id r).
Qed.

Lemma serve_ids {E : Engine} (cache : option Cache) (c : Call) (t : Table) :
  let t' := snd (fst (serve cache c t)) in
  (ids t' = ids t /\ auto_increment t' = auto_increment t) \/
  (ids t' = ids t ++ [auto_increment t] /\
   auto_increment t' = auto_increment t + 1).
Proof. apply writes_ids, serve_writes. Qed.

(** Closes a goal [task ∈ tasks -> CSet _ _ _ ∈ task -> _] when the tasks
    only delete. *)
Ltac no_set :=
  let Htask := fresh "Htask" in
  let Hop := fresh "Hop" in
  intros Htask Hop;
  repeat (apply elem_of_cons in Htask as [->|Htask];
          [repeat (apply elem_of_cons in Hop as [Hop|Hop]; [discriminate|]);
           by apply elem_of_nil in Hop|]);
  by apply elem_of_nil in Htask.

(** A goroutine started by a call stores a single-book entry only under the
    id of a row, and what it stores is the active row that the repository
    returned. *)
Lemma serve_spawned {E : Engine} (cache : option Cache) (c : Call) (t : Table)
    (task : list CacheOp) (id : Z) (v : CacheVal) (expires : Z) :
  task ∈ spawned (snd (serve cache c t)) ->
  CSet (getByIDCacheKey id) v expires ∈ task ->
  id ∈ ids t /\ entry_of id v.
Proof.
  destruct c as [now b|id0|au l o|now now' id0 b|now id0];
    unfold_service; unfold_mysql.
  - destruct (sql_insert _ t) as [e|[id1 t']]; cbn.
    + destruct (match e with MySQLError _ => _ | _ => _ end); cbn; no_set.
    + destruct cache; cbn; no_set.
  - destruct cache as [c|]; cbn;
      [destruct (cache_Get_Book c _); cbn; [no_set|]|].
    + destruct (sql_select_by_id id0 t) as [[]|r] eqn:Hsel; cbn; try no_set.
      apply sql_select_by_id_found in Hsel as (Hin & Hid & Hactive).
      intros Htask Hop. apply list_elem_of_singleton in Htask as ->.
      apply list_elem_of_singleton in Hop.
      assert (Hkey : getByIDCacheKey id = getByIDCacheKey id0) by congruence.
      assert (Hv : v = CBook r) by congruence.
      apply getByIDCacheKey_inj in Hkey as ->. split.
      * unfold ids. rewrite <- Hid. by apply list_elem_of_fmap_2.
      * by exists r.
    + destruct (sql_select_by_id id0 t) as [[]|r]; cbn; no_set.
  - destruct cache as [c|]; cbn;
      [destruct (BookService.unpaginated l o); cbn;
       [destruct (cache_Get_Books c _); cbn; [no_set|]|]|];
      try no_set.
    intros Htask Hop. apply list_elem_of_singleton in Htask as ->.
    apply list_elem_of_singleton in Hop.
    assert (Hkey : getAllCacheKey au = getByIDCacheKey id) by congruence.
    by apply getAllCacheKey_not_byid in Hkey.
  - destruct (bool_decide (Title b = "")); [no_set|].
    destruct (bool_decide (Author b = "")); [no_set|].
    destruct (sql_select_by_id id0 t) as [[]|existing]; try no_set.
    match goal with |- context [sql_update id0 ?b t] =>
      destruct (sql_update id0 b t) as [e|t'] end; cbn.
    + destruct (match e with MySQLError _ => _ | _ => _ end); cbn; no_set.
    + destruct cache; cbn; no_set.
  - destruct (sql_select_by_id id0 t) as [[]|existing]; try no_set.
    destruct (sql_soft_delete id0 now t) as [e|t']; cbn; [no_set|].
    destruct cache; cbn; no_set.
Qed.

Lemma elem_of_insert_inv {A} (l : list A) (i : nat) (x y : A) :
  y ∈ <[i:=x]> l -> y = x \/ y ∈ l.
Proof.
  intros Hy. apply list_elem_of_lookup in Hy as [j Hj].
  destruct (decide (i = j)) as [->|Hne].
  - destruct (decide (j < length l)%nat) as [Hlt|Hge].
    + rewrite list_lookup_insert_eq in Hj by done. left. congruence.
    + rewrite list_insert_ge in Hj by lia. right.
      apply list_elem_of_lookup. eauto.
  - rewrite list_lookup_insert_ne in Hj by done. right.
    apply list_elem_of_lookup. eauto.
Qed.

Lemma init_consistent (with_cache : bool) : consistent (init with_cache).
Proof.
  split; cbn.
  - intros id Hid. by apply elem_of_nil in Hid.
  - intros c id v Hc. destruct with_cache; [|done].
    injection Hc as <-. cbn. by rewrite lookup_empty.
  - intros task id v e Htask. by apply elem_of_nil in Htask.
Qed.

Lemma exec_consistent {E : Engine} (a : Action) (s : Sys) :
  consistent s -> consistent (exec a s).
Proof.
  intros [Hbelow Hcached Hpending].
  destruct a as [c|i|i|key|up]; cbn.
  - unfold call.
    pose proof (serve_ids (s_cache s) c (s_db s)) as Hids.
    pose proof (serve_spawned (s_cache s) c (s_db s)) as Hspawn.
    destruct (serve (s_cache s) c (s_db s)) as [[reply db'] tr].
    cbn in Hids, Hspawn.
    assert (Hgrow : forall id, id ∈ ids (s_db s) -> id ∈ ids db').
    { intros id Hid. destruct Hids as [[-> _]|[-> _]]; [done|].
      apply elem_of_app. by left. }
    split; cbn.
    + intros id Hid. destruct Hids as [[Hsame ->]|[Hnew ->]].
      * rewrite Hsame in Hid. by apply Hbelow.
      * rewrite Hnew in Hid. apply elem_of_app in Hid as [Hid|Hid].
        -- apply Hbelow in Hid. lia.
        -- apply list_elem_of_singleton in Hid. lia.
    + intros c0 id v Hc Hlook.
      destruct (Hcached c0 id v Hc Hlook) as [Hid Hv]. eauto.
    + intros task id v e Htask Hop.
      apply elem_of_app in Htask as [Htask|Htask].
      * destruct (Hpending task id v e Htask Hop) as [Hid Hv]. eauto.
      * destruct (Hspawn task id v e Htask Hop) as [Hid Hv]. eauto.
  - destruct (s_pending s !! i) as [[|op rest]|] eqn:Hi; [done| |done].
    assert (Htask : (op :: rest) ∈ s_pending s)
      by (apply list_elem_of_lookup; eauto).
    split; cbn; [done| |].
    + intros c id v Hc Hlook.
      destruct (s_cache s) as [c0|] eqn:Hc0; [|done].
      injection Hc as <-. unfold cache_apply in Hlook.
      destruct (c_up c0); [|by eapply Hcached].
      destruct op as [key v0 e0|key]; cbn in Hlook.
      * destruct (decide (key = getByIDCacheKey id)) as [->|Hne].
        -- rewrite lookup_insert_eq in Hlook. injection Hlook as <-.
           eapply (Hpending _ id v0 e0 Htask). apply list_elem_of_here.
        -- rewrite lookup_insert_ne in Hlook by done. by eapply Hcached.
      * apply lookup_delete_Some in Hlook as [_ Hlook]. by eapply Hcached.
    + intros task id v e Hin Hop.
      apply elem_of_insert_inv in Hin as [->|Hin].
      * eapply (Hpending _ id v e Htask). by apply list_elem_of_further.
      * by eapply Hpending.
  - split; cbn; [done|done|].
    intros task id v e Hin Hop.
    apply elem_of_insert_inv in Hin as [->|Hin].
    + by apply elem_of_nil in Hop.
    + by eapply Hpending.
  - split; cbn; [done| |done].
    intros c id v Hc Hlook.
    destruct (s_cache s) as [c0|] eqn:Hc0; [|done].
    injection Hc as <-. cbn in Hlook.
    apply lookup_delete_Some in Hlook as [_ Hlook]. by eapply Hcached.
  - split; cbn; [done| |done].
    intros c id v Hc Hlook.
    destruct (s_cache s) as [c0|] eqn:Hc0; [|done].
    injection Hc as <-. cbn in Hlook. by eapply Hcached.
Qed.

Lemma run_consistent {E : Engine} (acts : list Action) (s : Sys) :
  consistent s -> consistent (run acts s).
Proof.
  revert s. induction acts as [|a acts IH]; intros s Hs; [done|].
  cbn. apply IH. by apply exec_consistent.
Qed.

Lemma reachable_consistent {E : Engine} (s : Sys) : reachable s -> consistent s.
Proof.
  intros (with_cache & acts & ->). apply run_consistent, init_consistent.
Qed.

(** ** GetByID *)

Lemma find_all_false {A} (f : A -> bool) (l : list A) :
  (forall x, x ∈ l -> f x = false) -> find f l = None.
Proof.
  induction l as [|y l IH]; intros Hf; [done|]. cbn.
  rewrite (Hf y) by apply list_elem_of_here.
  apply IH. intros x Hx. apply Hf. by apply list_elem_of_further.
Qed.

Lemma find_last {A} (f : A -> bool) (l : list A) (x : A) :
  (forall y, y ∈ l -> f y = false) -> f x = true -> find f (l ++ [x]) = Some x.
Proof.
  induction l as [|y l IH]; intros Hf Hx; cbn; [by rewrite Hx|].
  rewrite (Hf y) by apply list_elem_of_here.
  apply IH; [|done]. intros z Hz. apply Hf. by apply list_elem_of_further.
Qed.

Lemma sql_select_by_id_none (id : Z) (t : Table) :
  (forall r, r ∈ rows t -> ID r = id -> is_Some (DeletedAt r)) ->
  sql_select_by_id id t = inl ErrNoRows.
Proof.
  intros Hgone. unfold sql_select_by_id.
  rewrite find_all_false; [done|]. intros r Hr.
  destruct (decide (ID r = id)) as [Hid|Hne].
  - apply (targets_inactive id), Hgone; done.
  - by apply targets_other.
Qed.

Lemma no_entry_for_unknown_id (s : Sys) (id : Z) :
  consistent s -> id ∉ ids (s_db s) -> served_from_cache s id = false.
Proof.
  intros [_ Hcached _] Hid. unfold served_from_cache.
  destruct (s_cache s) as [c|] eqn:Hc; [|done].
  unfold cache_Get_Book, cache_Get. destruct (c_up c); [|done].
  destruct (c_store c !! getByIDCacheKey id) as [v|] eqn:Hlook; [|done].
  exfalso. apply Hid. by eapply Hcached.
Qed.



(** The entry may also be stored after the invalidation: the goroutine that
    caches the book of an earlier GetByID(1) runs after the two deletions of
    the goroutine of Delete(1), and with all goroutines finished GetByID(1)
    still returns the book. *)
Example stale_entry_after_invalidation :
  let s := run [ACall (CallCreate 1000 sample_book); ARun 0;
                ACall (CallGetByID 1); ACall (CallDelete 2000 1);
                ARun 2; ARun 2; ARun 1] (init true) in
  s_pending s = [[]; []; []] /\
  rows (s_db s)
  = [deleted_row 2000 (inserted_row 1 (with_times 1000 1000 sample_book))] /\
  fst (fst (BookService.GetByID (s_cache s) 1 (s_db s)))
  = Ok (inserted_row 1 (with_times 1000 1000 sample_book)).
Proof. vm_compute. done. Qed.



(** ** Create, then GetByID *)

(** Whatever the engine, an instant that its DATETIME(6) columns cannot hold
    is not read back: with a clock reading that is not among the values
    that the engine stores, GetByID right after Create does not return the
    record that Create returned. *)
Lemma clock_reading_not_stored {E : Engine} (now : Time) :
  (forall t, datetime6 t <> Some now) ->
  ~ (forall (cache : option Cache) (now : Time) (book : Book) (t : Table),
       Title book <> "" -> Author book <> "" ->
       existsb (same_key book) (rows t) = false ->
       exists created t' tr,
         BookService.Create cache now book t = (Ok created, t', tr) /\
         CreatedAt created = now /\ UpdatedAt created = now /\
         fst (fst (BookService.GetByID cache (ID created) t')) = Ok created).
Proof.
  intros Hnot Hclaim.
  destruct (Hclaim None now
              {| ID := 0; Title := "Dune"; Author := "Frank Herbert";
                 ISBN := "9780441013593"; Description := "Arrakis";
                 PublishedAt := 60724080000000000000; CreatedAt := 0;
                 UpdatedAt := 0; DeletedAt := None |} empty_table)
    as (created & t' & tr & Hcreate & _ & _ & Hget); try done.
  clear Hclaim.
  apply Create_ok in Hcreate as (v & Hvalues & _ & -> & ->).
  apply insert_values_spec in Hvalues as (_ & _ & _ & _ & _ & _ & _ & Hc & _).
  cbn in Hc. revert Hget. unfold_service. unfold_mysql.
  unfold sql_select_by_id. cbn. intros [= _ _ _ _ _ Hcreated _].
  apply (Hnot now). congruence.
Qed.

(** C7, as stated, fails: the clock reading of Create has nanoseconds, which
    Create returns and which the DATETIME(6) columns do not keep, so that
    GetByID right after returns other timestamps than Create did. *)
Lemma Create_returns_nanoseconds :
  ~ (forall (cache : option Cache) (now : Time) (book : Book) (t : Table),
       Title book <> "" -> Author book <> "" ->
       existsb (same_key book) (rows t) = false ->
       exists created t' tr,
         BookService.Create cache now book t = (Ok created, t', tr) /\
         CreatedAt created = now /\ UpdatedAt created = now /\
         fst (fst (BookService.GetByID cache (ID created) t')) = Ok created).
Proof.
  apply (clock_reading_not_stored a_clock_reading).
  intros t. cbn. destruct (IsZero t); [done|]. intros [= Hround].
  assert (Hmod : a_clock_reading mod 1000 = 0)
    by (rewrite <- Hround; apply Z.mod_mul; lia).
  vm_compute in Hmod. discriminate.
Qed.

(** What the two calls return with such a clock reading. *)
Example Create_then_GetByID_nanoseconds :
  let '(res, t', _) :=
    BookService.Create None a_clock_reading sample_book empty_table in
  res = Ok (set_id 1 (with_times 63866000000123456789 63866000000123456789
                                 sample_book)) /\
  fst (fst (BookService.GetByID None 1 t'))
  = Ok (set_id 1 (with_times 63866000000123457000 63866000000123457000
                             sample_book)).
Proof. vm_compute. done. Qed.

(** It also fails for an input that carries a deletedAt: Create returns its
    argument with only id and timestamps replaced, so the deletedAt of the
    input is returned to the caller while the stored row, and GetByID, have
    none. *)
Example Create_returns_input_deletedAt :
  let '(res, t', _) := BookService.Create None 1000 tombstoned_book empty_table in
  res = Ok (set_id 1 (with_times 1000 1000 tombstoned_book)) /\
  fst (fst (BookService.GetByID None 1 t'))
  = Ok (inserted_row 1 (with_times 1000 1000 tombstoned_book)) /\
  DeletedAt (set_id 1 (with_times 1000 1000 tombstoned_book)) = Some 5000 /\
  DeletedAt (inserted_row 1 (with_times 1000 1000 tombstoned_book)) = None.
Proof. vm_compute. done. Qed.

Lemma set_id_inserted_row (id : Z) (b : Book) :
  DeletedAt b = None -> inserted_row id b = set_id id b.
Proof. intros Hd. unfold inserted_row, set_id. by rewrite Hd. Qed.

Lemma inserted_row_kept {E : Engine} (id : Z) (b v : Book) :
  DeletedAt b = None -> insert_values b = inr v ->
  inserted_row id v = set_id id b <-> kept b.
Proof.
  intros Hnodel Hvalues. unfold kept. rewrite Hvalues.
  apply insert_values_spec in Hvalues as (Hid & Hdel & _). split.
  - intros Hrow. f_equal. destruct v, b. unfold inserted_row, set_id in Hrow.
    cbn in *. congruence.
  - intros [= ->]. by apply set_id_inserted_row.
Qed.

(** C7, amended. In every reachable state, for an input without deletedAt
    whose values the engine accepts and whose (title, author, isbn) triple,
    as the columns take it, no stored row holds under the collation of the
    table: Create succeeds; the created entity is the input with the next
    id, and with createdAt and updatedAt both set to the service's clock
    reading, whatever the input carried there; a GetByID on the returned id
    right after returns the stored row, which is the created entity with
    each value as its column took it; and that is the created entity itself
    exactly when the engine took every value as it was. *)
Theorem Create_then_GetByID {E : Engine}
    (s : Sys) (now : Time) (book v : Book) :
  reachable s ->
  DeletedAt book = None ->
  insert_values (with_times now now book) = inr v ->
  existsb (same_key v) (rows (s_db s)) = false ->
  exists created s',
    call (CallCreate now book) s = (RBook (Ok created), s') /\
    created = set_id (auto_increment (s_db s)) (with_times now now book) /\
    CreatedAt created = now /\ UpdatedAt created = now /\
    fst (call (CallGetByID (ID created)) s')
    = RBook (Ok (inserted_row (ID created) v)) /\
    (inserted_row (ID created) v = created <-> kept (with_times now now book)).
Proof.
  intros Hreach Hnodel Hvalues Hfresh. apply reachable_consistent in Hreach.
  set (id := auto_increment (s_db s)).
  set (stamped := with_times now now book).
  pose proof (Create_fresh_key (s_cache s) now book v (s_db s) Hvalues Hfresh)
    as Hcreate.
  assert (Hnew : id ∉ ids (s_db s)).
  { intros Hin. apply (ids_below s Hreach) in Hin. subst id. lia. }
  pose proof (no_entry_for_unknown_id s id Hreach Hnew) as Hmiss.
  eexists (set_id id stamped), _. split; [|split; [done|]].
  { unfold call, serve. unfold mbind at 1, M_bind at 1.
    rewrite Hcreate. reflexivity. }
  split; [done|]. split; [done|].
  split; [|by apply inserted_row_kept].
  assert (Hsel : sql_select_by_id id
            {| rows := rows (s_db s) ++ [inserted_row id v];
               auto_increment := id + 1 |} = inr (inserted_row id v)).
  { unfold sql_select_by_id. cbn.
    rewrite (find_last _ _ (inserted_row id v)); [done| |].
    - intros r Hr. apply targets_other. intros Hid. apply Hnew.
      unfold ids. rewrite <- Hid. by apply list_elem_of_fmap_2.
    - cbn. by rewrite bool_decide_eq_true_2. }
  unfold call. cbn [s_cache s_db ID set_id].
  unfold served_from_cache in Hmiss.
  unfold_service. unfold_mysql.
  destruct (s_cache s) as [c|]; cbn.
  - destruct (cache_Get_Book c (getByIDCacheKey id)) as [b|e]; [done|]. cbn.
    fold id. rewrite Hsel. done.
  - fold id. rewrite Hsel. done.
Qed.

Lemma Create_then_GetByID_witness :
  kept (with_times 9000 9000 third_book) /\
  exists created s',
    call (CallCreate 9000 third_book) two_books = (RBook (Ok created), s') /\
    fst (call (CallGetByID (ID created)) s') = RBook (Ok created).
Proof.
  assert (Hkept : kept (with_times 9000 9000 third_book))
    by (vm_compute; reflexivity).
  split; [exact Hkept|].
  assert (Hreach : reachable two_books).
  { by exists true, [ACall (CallCreate 1000 sample_book);
                     ACall (CallCreate 4000 other_book)]. }
  destruct (Create_then_GetByID two_books 9000 third_book _ Hreach
              eq_refl Hkept)
    as (created & s' & Hcreate & _ & _ & _ & Hget & Hsame).
  - vm_compute. reflexivity.
  - exists created, s'. split; [done|].
    rewrite Hget. do 2 f_equal. by apply Hsame.
Defined.

(** ** Paging *)

(** C5, as stated, fails: limit=9223372036854775808 is a numeral above zero,
    yet [strconv.Atoi] rejects it and the limit counts as absent: with
    page=2 both rows are returned, where rows [L, 2L) are none. *)
Lemma out_of_range_limit_is_ignored :
  ~ (forall (t : Table) (author pageStr limitStr : string),
       books_of (fst (fst (BookController.GetAll None author pageStr limitStr t)))
       = Some (claimed_window (claimed_param pageStr) (claimed_param limitStr)
                              (matching author t))).
Proof.
  intros Hclaim.
  specialize (Hclaim (s_db two_books) "" "2" "9223372036854775808").
  assert (Hcode :
    books_of (fst (fst (BookController.GetAll None "" "2" "9223372036854775808"
                                              (s_db two_books))))
    = Some (matching "" (s_db two_books))) by (vm_compute; reflexivity).
  assert (Hpage : claimed_param "2" = Some 2) by (vm_compute; reflexivity).
  assert (Hlimit : claimed_param "9223372036854775808"
                   = Some 9223372036854775808) by (vm_compute; reflexivity).
  assert (Hlen : length (matching "" (s_db two_books)) = 2%nat)
    by (vm_compute; reflexivity).
  rewrite Hcode, Hpage, Hlimit in Hclaim. unfold claimed_window in Hclaim.
  rewrite drop_ge in Hclaim by (rewrite Hlen; lia).
  rewrite take_nil in Hclaim.
  assert (Hnil : matching "" (s_db two_books) = []) by congruence.
  rewrite Hnil in Hlen. discriminate.
Qed.

Lemma recognised_spec (s : string) (n : Z) :
  BookController.recognised s = Some n <->
  numeral s = Some n /\ 0 < n <= max_int.
Proof.
  unfold BookController.recognised, Atoi.
  destruct (decide (s = "")) as [->|Hne].
  - cbn. split; [done|]. by intros [? _].
  - rewrite bool_decide_eq_true_2 by done.
    destruct (numeral s) as [v|]; [|split; [done|by intros [? _]]].
    destruct (min_int <=? v) eqn:Hmin, (v <=? max_int) eqn:Hmax; cbn;
      try destruct (0 <? v) eqn:Hpos; unfold min_int, max_int in *;
      split; try done; try (intros [= <-]; split; [done|lia]);
      try (intros [[= <-] ?]; first [done | lia]).
Qed.

Lemma wrap_int_small (z : Z) : 0 <= z <= max_int -> wrap_int z = z.
Proof.
  unfold wrap_int, max_int. intros Hz.
  rewrite Z.mod_small by lia. lia.
Qed.

Lemma GetAll_with_limit {E : Engine} (cache : option Cache) (author : option string)
    (limit offset : Z) (t : Table) :
  0 < limit -> 0 <= offset ->
  BookService.GetAll cache author limit offset t
  = (Ok (take (Z.to_nat limit)
              (drop (Z.to_nat offset)
                    (sql_select_all
                       (match author with
                        | Some a => if bool_decide (a <> "") then Some a else None
                        | None => None
                        end) t))),
     t, [EvRepo (RGetAll author limit offset)]).
Proof.
  intros Hl Ho. unfold_service. unfold_mysql.
  unfold BookService.unpaginated.
  rewrite (bool_decide_eq_false_2 (limit = 0)) by lia.
  assert (Hlim : (0 <? limit) = true) by (apply Z.ltb_lt; lia).
  rewrite Hlim. unfold sql_limit.
  assert (Hoff : Z.to_nat (default 0 (if 0 <? offset then Some offset else None))
                 = Z.to_nat offset).
  { destruct (0 <? offset) eqn:Hpos; [done|].
    apply Z.ltb_ge in Hpos. cbn. by replace offset with 0 by lia. }
  rewrite Hoff. by destruct cache.
Qed.

Lemma GetAll_without_limit {E : Engine} (cache : option Cache) (author : option string)
    (t : Table) :
  (forall c, cache = Some c ->
             is_ok (cache_Get_Books c (getAllCacheKey author)) = false) ->
  fst (fst (BookService.GetAll cache author 0 0 t))
  = Ok (sql_select_all
          (match author with
           | Some a => if bool_decide (a <> "") then Some a else None
           | None => None
           end) t).
Proof.
  intros Hmiss. unfold_service. unfold_mysql. cbn.
  destruct cache as [c|]; cbn; [|done].
  specialize (Hmiss c eq_refl).
  destruct (cache_Get_Books c _); [done|]. done.
Qed.

Lemma GetAll_never_fails {E : Engine} (cache : option Cache) (author : option string)
    (limit offset : Z) (t : Table) :
  is_ok (fst (fst (BookService.GetAll cache author limit offset t))) = true.
Proof.
  unfold_service. unfold_mysql.
  destruct cache as [c|]; cbn; [|done].
  destruct (BookService.unpaginated limit offset); cbn; [|done].
  by destruct (cache_Get_Books c _).
Qed.

Lemma Controller_GetAll_result {E : Engine} (cache : option Cache)
    (author pageStr limitStr : string) (t : Table) :
  let page := BookController.recognised pageStr in
  let limit := BookController.recognised limitStr in
  let found := fst (fst (BookService.GetAll cache (author_filter author)
                           (default 0 limit)
                           (BookController.page_offset page limit) t)) in
  let res := fst (fst (BookController.GetAll cache author pageStr limitStr t)) in
  is_ok res = is_ok found /\
  books_of res = match found with Ok l => Some l | Err _ => None end.
Proof.
  cbv zeta. unfold BookController.GetAll, author_filter.
  unfold mbind, M_bind.
  destruct (BookService.GetAll _ _ _ _ t) as [[[l|e] t'] tr]; done.
Qed.

Lemma author_filter_select {E : Engine} (author : string) (t : Table) :
  sql_select_all
    (match author_filter author with
     | Some a => if bool_decide (a <> "") then Some a else None
     | None => None
     end) t
  = matching author t.
Proof.
  unfold matching, author_filter.
  destruct (decide (author = "")) as [->|Hne]; [done|].
  by rewrite !bool_decide_eq_true_2.
Qed.

(** C5, amended. A GetAll request never fails in the service. A page or limit
    value counts exactly when it is a decimal numeral above zero that fits a
    64-bit int; otherwise it is as if absent. Without a limit that counts,
    and unless the cache answers with a stored list, all matching rows are
    returned and page is ignored. With a limit L that counts and no page
    that counts, the first L rows are returned. With page P and limit L that
    both count and (P-1)*L within the int range, exactly the rows at indices
    [(P-1)*L, P*L) are returned, cut at the end of the data, and none when
    the offset is past the end. *)
Theorem GetAll_paging {E : Engine} (cache : option Cache)
    (author pageStr limitStr : string) (t : Table) :
  let page := BookController.recognised pageStr in
  let limit := BookController.recognised limitStr in
  let all := matching author t in
  let res := fst (fst (BookController.GetAll cache author pageStr limitStr t)) in
  (forall s n, BookController.recognised s = Some n <->
               numeral s = Some n /\ 0 < n <= max_int) /\
  is_ok res = true /\
  match limit with
  | None =>
      (forall c, cache = Some c ->
         is_ok (cache_Get_Books c (getAllCacheKey (author_filter author)))
         = false) ->
      books_of res = Some all
  | Some L =>
      match page with
      | None => books_of res = Some (take (Z.to_nat L) all)
      | Some P =>
          (P - 1) * L <= max_int ->
          books_of res
            = Some (take (Z.to_nat L) (drop (Z.to_nat ((P - 1) * L)) all)) /\
          (Z.of_nat (length all) <= (P - 1) * L -> books_of res = Some [])
      end
  end.
Proof.
  cbv zeta.
  pose proof (Controller_GetAll_result cache author pageStr limitStr t)
    as [Hok Hbooks]. cbv zeta in Hok, Hbooks.
  split; [apply recognised_spec|].
  split; [rewrite Hok; apply GetAll_never_fails|].
  rewrite Hbooks. clear Hok Hbooks.
  destruct (BookController.recognised limitStr) as [L|] eqn:Hlimit.
  - apply recognised_spec in Hlimit as [_ HL].
    destruct (BookController.recognised pageStr) as [P|] eqn:Hpage; cbn.
    + apply recognised_spec in Hpage as [_ HP]. intros Hfit.
      assert (Hoff : int_mul (int_sub P 1) L = (P - 1) * L).
      { unfold int_mul, int_sub. rewrite (wrap_int_small (P - 1)) by lia.
        apply wrap_int_small. nia. }
      rewrite Hoff, GetAll_with_limit by nia. cbn.
      rewrite author_filter_select. split; [done|].
      intros Hpast. rewrite drop_ge by lia. by rewrite take_nil.
    + rewrite GetAll_with_limit by lia. cbn.
      by rewrite author_filter_select.
  - cbn. intros Hmiss.
    rewrite GetAll_without_limit by done.
    by rewrite author_filter_select.
Qed.

Lemma GetAll_paging_witness :
  books_of (fst (fst (BookController.GetAll None "" "2" "1" (s_db two_books))))
  = Some (take 1 (drop 1 (matching "" (s_db two_books)))).
Proof.
  pose proof (GetAll_paging None "" "2" "1" (s_db two_books)) as (_ & _ & Hwin).
  cbv zeta in Hwin.
  assert (Hlimit : BookController.recognised "1" = Some 1) by reflexivity.
  assert (Hpage : BookController.recognised "2" = Some 2) by reflexivity.
  rewrite Hlimit, Hpage in Hwin.
  apply Hwin. unfold max_int. lia.
Defined.

(** Outside the int range the offset wraps around: page 2^62+1 with limit 4
    gives offset 0, the first page. *)
Example page_offset_wraps :
  BookController.page_offset (Some 4611686018427387905) (Some 4) = 0.
Proof. vm_compute. reflexivity. Qed.


(** * Further properties *)

(** ** Primary key and unique key *)

Lemma same_key_spec {E : Engine} (a b : Book) :
  same_key a b = true <->
  weight (Title a) = weight (Title b) /\
  weight (Author a) = weight (Author b) /\
  weight (ISBN a) = weight (ISBN b).
Proof.
  unfold same_key. rewrite !andb_true_iff, !bool_decide_eq_true. tauto.
Qed.

(** Rows that hold the same strings collide under every collation. *)
Lemma same_key_bytes {E : Engine} (a b : Book) :
  Title a = Title b -> Author a = Author b -> ISBN a = ISBN b ->
  same_key a b = true.
Proof. intros Ht Ha Hi. apply same_key_spec. by rewrite Ht, Ha, Hi. Qed.

Lemma same_key_sym {E : Engine} (a b : Book) :
  same_key a b = true -> same_key b a = true.
Proof. rewrite !same_key_spec. intros (H1 & H2 & H3). by rewrite H1, H2, H3. Qed.

Lemma existsb_false {A} (f : A -> bool) (l : list A) (x : A) :
  existsb f l = false -> x ∈ l -> f x = false.
Proof.
  intros Hnone Hx. destruct (f x) eqn:Hfx; [|done].
  rewrite <- Hnone. symmetry. apply existsb_exists.
  exists x. split; [by apply list_elem_of_In | done].
Qed.

Lemma ids_increasing_inj (t : Table) (i j : nat) (a b : Book) :
  ids_increasing t ->
  rows t !! i = Some a -> rows t !! j = Some b -> ID a = ID b -> i = j.
Proof.
  intros (_ & _ & Hinc) Hi Hj Hid.
  destruct (Nat.lt_trichotomy i j) as [Hlt|[Heq|Hgt]]; [|done|].
  - pose proof (Hinc i j a b Hi Hj Hlt). lia.
  - pose proof (Hinc j i b a Hj Hi Hgt). lia.
Qed.

Lemma map_rows_ids_increasing (g : Book -> Book) (t : Table) :
  (forall r, ID (g r) = ID r) ->
  ids_increasing t ->
  ids_increasing {| rows := map g (rows t); auto_increment := auto_increment t |}.
Proof.
  intros Hg (Hauto & Hbound & Hinc). split; [done|]. split; cbn.
  - intros r Hr. apply list_elem_of_fmap in Hr as (r0 & -> & Hr0).
    rewrite Hg. by apply Hbound.
  - intros i j a b Hi Hj Hlt.
    rewrite list_lookup_fmap in Hi, Hj.
    destruct (rows t !! i) as [a0|] eqn:Hi0; [|done].
    destruct (rows t !! j) as [b0|] eqn:Hj0; [|done].
    injection Hi as <-. injection Hj as <-. rewrite !Hg. by eapply Hinc.
Qed.

Lemma writes_ids_increasing {E : Engine} (t t' : Table) :
  writes t t' -> ids_increasing t -> ids_increasing t'.
Proof.
  intros [|b id t2 Hins|id b t2 Hup|id now t2 Hdel] Hok; [done| | |].
  - destruct Hok as (Hauto & Hbound & Hinc).
    unfold sql_insert in Hins. unfold_sql.
    destruct (insert_values b) as [e|v]; [done|].
    destruct (existsb _ _); [done|].
    injection Hins as <- <-. split; [cbn; lia|]. split; cbn.
    + intros r Hr. apply elem_of_app in Hr as [Hr|Hr].
      * apply Hbound in Hr. lia.
      * apply list_elem_of_singleton in Hr as ->. cbn. lia.
    + intros i j a b0 Hi Hj Hlt.
      apply lookup_app_Some in Hj as [Hj|[Hlen Hj]].
      * assert (Hi' : rows t !! i = Some a).
        { apply lookup_app_Some in Hi as [Hi|[Hge _]]; [done|].
          apply lookup_lt_Some in Hj. lia. }
        by eapply Hinc.
      * apply list_lookup_singleton_Some in Hj as [Hjdx <-]. cbn.
        assert (Hi' : rows t !! i = Some a).
        { apply lookup_app_Some in Hi as [Hi|[Hge Hi]]; [done|].
          apply list_lookup_singleton_Some in Hi as [Hidx _]. lia. }
        assert (Ha : a ∈ rows t) by (apply list_elem_of_lookup; eauto).
        apply Hbound in Ha. lia.
  - apply sql_update_rows in Hup as [[_ ->]|(v & _ & _ & _ & ->)]; [done|].
    apply map_rows_ids_increasing; [|done].
    intros r. by destruct (targets id r).
  - apply sql_soft_delete_rows in Hdel as [[_ ->]|(d & _ & _ & ->)]; [done|].
    apply map_rows_ids_increasing; [|done].
    intros r. by destruct (targets id r).
Qed.

Lemma writes_keys_unique {E : Engine} (t t' : Table) :
  writes t t' -> ids_increasing t -> keys_unique t -> keys_unique t'.
Proof.
  intros [|b id t2 Hins|id b t2 Hup|id now t2 Hdel] Hids Hkeys; [done| | |].
  - unfold sql_insert in Hins. unfold_sql.
    destruct (insert_values b) as [e|v]; [done|].
    destruct (existsb _ _) eqn:Hfree; [done|]. injection Hins as <- <-.
    assert (Hnew : forall i r, rows t !! i = Some r ->
                     same_key (inserted_row (auto_increment t) v) r = false).
    { intros i r Hi. apply (existsb_false _ _ r) in Hfree; [done|].
      apply list_elem_of_lookup; eauto. }
    intros i j a b0 Hi Hj Hsame. cbn in Hi, Hj.
    apply lookup_app_Some in Hi as [Hi|[Hleni Hi]];
      apply lookup_app_Some in Hj as [Hj|[Hlenj Hj]].
    + by eapply Hkeys.
    + apply list_lookup_singleton_Some in Hj as [_ <-].
      apply same_key_sym in Hsame.
      specialize (Hnew i a Hi). congruence.
    + apply list_lookup_singleton_Some in Hi as [_ <-].
      specialize (Hnew j b0 Hj). congruence.
    + apply list_lookup_singleton_Some in Hi as [Hi _].
      apply list_lookup_singleton_Some in Hj as [Hj _]. lia.
  - apply sql_update_rows in Hup as [[_ ->]|(v & _ & _ & Hconflict & ->)]; [done|].
    intros i j a' b' Hi Hj Hsame. cbn in Hi, Hj.
    rewrite list_lookup_fmap in Hi, Hj.
    destruct (rows t !! i) as [a|] eqn:Hi0; [|done].
    destruct (rows t !! j) as [b0|] eqn:Hj0; [|done].
    injection Hi as <-. injection Hj as <-.
    assert (Hother : forall k r, rows t !! k = Some r ->
                       same_key v r = true -> ID r = id).
    { intros k r Hk Hr.
      apply (existsb_false _ _ r) in Hconflict;
        [|apply list_elem_of_lookup; eauto].
      cbn beta in Hconflict. rewrite Hr in Hconflict. cbn in Hconflict.
      apply negb_false_iff in Hconflict. by apply bool_decide_eq_true in Hconflict. }
    destruct (targets id a) eqn:Hta, (targets id b0) eqn:Htb.
    + apply andb_true_iff in Hta as [Hida _].
      apply andb_true_iff in Htb as [Hidb _].
      apply bool_decide_eq_true in Hida. apply bool_decide_eq_true in Hidb.
      eapply ids_increasing_inj; eauto. congruence.
    + apply andb_true_iff in Hta as [Hida _].
      apply bool_decide_eq_true in Hida.
      eapply ids_increasing_inj; eauto.
      rewrite Hida. symmetry. by eapply Hother.
    + apply andb_true_iff in Htb as [Hidb _].
      apply bool_decide_eq_true in Hidb.
      eapply ids_increasing_inj; eauto.
      rewrite Hidb. eapply Hother; [done|].
      by apply same_key_sym in Hsame.
    + by eapply Hkeys.
  - apply sql_soft_delete_rows in Hdel as [[_ ->]|(d & _ & _ & ->)]; [done|].
    intros i j a' b' Hi Hj Hsame. cbn in Hi, Hj.
    rewrite list_lookup_fmap in Hi, Hj.
    destruct (rows t !! i) as [a|] eqn:Hi0; [|done].
    destruct (rows t !! j) as [b0|] eqn:Hj0; [|done].
    injection Hi as <-. injection Hj as <-.
    apply (Hkeys i j a b0 Hi0 Hj0).
    by destruct (targets id a), (targets id b0).
Qed.

Lemma reachable_ids_increasing {E : Engine} (s : Sys) :
  reachable s -> ids_increasing (s_db s).
Proof.
  apply (reachable_invariant ids_increasing).
  - split; [done|]. split.
    + intros r Hr. by apply elem_of_nil in Hr.
    + intros i j a b Hi. done.
  - apply writes_ids_increasing.
Qed.

(** X1. In every reachable state the ids of the rows are positive, below the
    AUTO_INCREMENT counter and strictly increasing along the table: an id is
    assigned once and never reused, also not after a soft delete. *)
Theorem ids_never_reused {E : Engine} (s : Sys) (i j : nat) (a b : Book) :
  reachable s ->
  rows (s_db s) !! i = Some a -> rows (s_db s) !! j = Some b ->
  0 < ID a < auto_increment (s_db s) /\
  ((i < j)%nat -> ID a < ID b) /\
  (ID a = ID b -> i = j).
Proof.
  intros Hreach Hi Hj. apply reachable_ids_increasing in Hreach.
  split; [|split].
  - apply Hreach. apply list_elem_of_lookup. eauto.
  - intros Hlt. destruct Hreach as (_ & _ & Hinc). by eapply Hinc.
  - by eapply ids_increasing_inj.
Qed.

(** X2. In every reachable state no two rows, active or soft-deleted, hold
    the same (title, author, isbn) triple: not byte for byte, and not under
    the collation of the table either. *)
Theorem unique_key_holds {E : Engine} (s : Sys) (i j : nat) (a b : Book) :
  reachable s ->
  rows (s_db s) !! i = Some a -> rows (s_db s) !! j = Some b ->
  (Title a = Title b -> Author a = Author b -> ISBN a = ISBN b -> i = j) /\
  (weight (Title a) = weight (Title b) ->
   weight (Author a) = weight (Author b) ->
   weight (ISBN a) = weight (ISBN b) -> i = j).
Proof.
  intros Hreach Hi Hj.
  assert (Hinv : ids_increasing (s_db s) /\ keys_unique (s_db s)).
  { apply (reachable_invariant
             (fun t => ids_increasing t /\ keys_unique t)); [| |done].
    - split; [|by intros i0 j0 a0 b0 Hi0].
      split; [done|]. split.
      + intros r Hr. by apply elem_of_nil in Hr.
      + by intros i0 j0 a0 b0 Hi0.
    - intros t t' Hw [Hids Hkeys]. split.
      + by eapply writes_ids_increasing.
      + by eapply writes_keys_unique. }
  destruct Hinv as [_ Hkeys]. split.
  - intros Ht Ha Hisbn. eapply Hkeys; eauto. by apply same_key_bytes.
  - intros Ht Ha Hisbn. eapply Hkeys; eauto. by apply same_key_spec.
Qed.

Lemma ids_never_reused_witness :
  exists a b,
    rows (s_db two_books) !! 0%nat = Some a /\
    rows (s_db two_books) !! 1%nat = Some b /\
    ID a < ID b.
Proof.
  assert (Hreach : reachable two_books).
  { by exists true, [ACall (CallCreate 1000 sample_book);
                     ACall (CallCreate 4000 other_book)]. }
  eexists _, _. split; [reflexivity|]. split; [reflexivity|].
  apply (ids_never_reused two_books 0 1 _ _ Hreach eq_refl eq_refl). lia.
Defined.

Lemma unique_key_holds_witness :
  exists a, rows (s_db two_books) !! 1%nat = Some a /\ 1%nat = 1%nat.
Proof.
  assert (Hreach : reachable two_books).
  { by exists true, [ACall (CallCreate 1000 sample_book);
                     ACall (CallCreate 4000 other_book)]. }
  eexists. split; [reflexivity|].
  by apply (unique_key_holds two_books 1 1 _ _ Hreach eq_refl eq_refl).
Defined.

(** ** Listings *)

Lemma insert_by_id_perm (x : Book) (l : list Book) :
  insert_by_id x l ≡ₚ x :: l.
Proof.
  induction l as [|y l IH]; cbn; [done|].
  destruct (ID x <? ID y); [done|].
  rewrite IH. apply Permutation_swap.
Qed.

Lemma order_by_id_perm (l : list Book) : order_by_id l ≡ₚ l.
Proof.
  induction l as [|x l IH]; cbn; [done|].
  rewrite insert_by_id_perm. by rewrite IH.
Qed.

Lemma insert_by_id_sorted (x : Book) (l : list Book) :
  StronglySorted by_id l -> StronglySorted by_id (insert_by_id x l).
Proof.
  induction 1 as [|y l Hsorted IH Hall]; cbn.
  - constructor; constructor.
  - destruct (ID x <? ID y) eqn:Hlt.
    + apply Z.ltb_lt in Hlt. constructor.
      * by constructor.
      * constructor; [unfold by_id; lia|].
        eapply Forall_impl; [done|]. unfold by_id. intros z Hz. lia.
    + apply Z.ltb_ge in Hlt. constructor; [done|].
      rewrite insert_by_id_perm. by constructor.
Qed.

Lemma order_by_id_sorted (l : list Book) : StronglySorted by_id (order_by_id l).
Proof.
  induction l as [|x l IH]; cbn; [constructor|].
  by apply insert_by_id_sorted.
Qed.

Lemma elem_of_take_drop {A} (n m : nat) (l : list A) (x : A) :
  x ∈ take n (drop m l) -> x ∈ l.
Proof.
  intros Hx. rewrite <- (take_drop m l). apply elem_of_app. right.
  rewrite <- (take_drop n (drop m l)). apply elem_of_app. by left.
Qed.

Lemma take_drop_sorted (n m : nat) (l : list Book) :
  StronglySorted by_id l -> StronglySorted by_id (take n (drop m l)).
Proof.
  intros Hl. rewrite <- (take_drop m l) in Hl.
  apply StronglySorted_app_1_r in Hl.
  rewrite <- (take_drop n (drop m l)) in Hl.
  by apply StronglySorted_app_1_l in Hl.
Qed.

Lemma sql_select_all_elem {E : Engine}
    (author : option string) (t : Table) (b : Book) :
  b ∈ sql_select_all
        (match author with
         | Some a => if bool_decide (a <> "") then Some a else None
         | None => None
         end) t
  <-> b ∈ rows t /\ listed author b.
Proof.
  unfold sql_select_all, listed. rewrite order_by_id_perm.
  rewrite list_elem_of_In, filter_In, <- list_elem_of_In.
  unfold active. rewrite andb_true_iff, bool_decide_eq_true.
  destruct author as [a|]; [|tauto].
  destruct (decide (a = "")) as [->|Hne].
  - rewrite bool_decide_eq_false_2 by (intros Hc; by apply Hc). tauto.
  - rewrite bool_decide_eq_true_2 by done. rewrite bool_decide_eq_true. tauto.
Qed.

(** X3. Repository.GetAll never fails and leaves the table alone. Its result
    is in ascending id order and holds only rows of the table that are not
    soft-deleted and whose author equals a non-empty filter under the
    collation of the column; with a positive limit it holds at most that
    many rows; with no limit it holds every such row. *)
Theorem GetAll_listing {E : Engine}
    (author : option string) (limit offset : Z) (t : Table) :
  exists l,
    mysql.GetAll author limit offset t = (Ok l, t) /\
    StronglySorted by_id l /\
    (forall b, b ∈ l -> b ∈ rows t /\ listed author b) /\
    (0 < limit -> Z.of_nat (length l) <= limit) /\
    (limit <= 0 -> forall b, b ∈ rows t -> listed author b -> b ∈ l).
Proof.
  unfold mysql.GetAll. eexists. split; [reflexivity|].
  destruct (0 <? limit) eqn:Hlim.
  - apply Z.ltb_lt in Hlim. unfold sql_limit. split; [|split; [|split]].
    + apply take_drop_sorted, order_by_id_sorted.
    + intros b Hb. apply elem_of_take_drop in Hb.
      by apply sql_select_all_elem in Hb.
    + intros _. rewrite length_take. lia.
    + lia.
  - apply Z.ltb_ge in Hlim. split; [|split; [|split]].
    + apply order_by_id_sorted.
    + intros b Hb. by apply sql_select_all_elem in Hb.
    + lia.
    + intros _ b Hb Hlisted. by apply sql_select_all_elem.
Qed.

Lemma concat_pages {A} (l : list A) (L n : nat) :
  concat (map (fun p => take L (drop (p * L) l)) (seq 0 n)) = take (n * L) l.
Proof.
  induction n as [|n IH]; [done|].
  rewrite seq_S, map_app, concat_app, IH. cbn.
  rewrite app_nil_r, take_take_drop. f_equal. lia.
Qed.

(** X4. Pages tile the listing: with a positive limit and offsets within the
    int range, the results of the first n pages (offsets 0, limit,
    2*limit, ...) put one after the other are the first n*limit rows of the
    unpaginated repository listing, with no row skipped or repeated, whatever
    the cache holds. *)
Theorem pages_tile_the_listing {E : Engine}
    (cache : option Cache) (author : option string) (limit : Z) (t : Table)
    (n : nat) (all : list Book) :
  0 < limit -> Z.of_nat n * limit <= max_int ->
  fst (mysql.GetAll author 0 0 t) = Ok all ->
  concat (map (page_books cache author limit t) (seq 0 n))
  = take (n * Z.to_nat limit) all.
Proof.
  intros Hlimit _ Hall. unfold mysql.GetAll in Hall. cbn in Hall.
  injection Hall as <-. rewrite <- concat_pages. f_equal.
  apply map_ext. intros p. unfold page_books.
  rewrite GetAll_with_limit by lia. cbn. f_equal. f_equal. nia.
Qed.

Lemma pages_tile_the_listing_witness :
  concat (map (page_books None None 1 (s_db two_books)) (seq 0 2))
  = take (2 * Z.to_nat 1) (rows (s_db two_books)).
Proof.
  apply (pages_tile_the_listing None None 1 (s_db two_books) 2).
  - lia.
  - unfold max_int. lia.
  - reflexivity.
Defined.

Lemma increasing_sorted (l : list Book) :
  (forall i j a b, l !! i = Some a -> l !! j = Some b -> (i < j)%nat ->
                   ID a < ID b) ->
  StronglySorted id_lt l.
Proof.
  induction l as [|x l IH]; intros Hinc; constructor.
  - apply IH. intros i j a b Hi Hj Hlt.
    apply (Hinc (S i) (S j) a b); [done|done|lia].
  - apply Forall_forall. intros y Hy.
    apply list_elem_of_lookup in Hy as [j Hj].
    apply (Hinc 0%nat (S j) x y); [done|done|lia].
Qed.

Lemma filter_sorted (p : Book -> bool) (l : list Book) :
  StronglySorted id_lt l -> StronglySorted id_lt (List.filter p l).
Proof.
  induction 1 as [|x l Hsorted IH Hall]; cbn; [constructor|].
  destruct (p x); [|done]. constructor; [done|].
  apply Forall_forall. intros y Hy.
  apply list_elem_of_In, filter_In in Hy as [Hy _].
  rewrite Forall_forall in Hall. by apply Hall, list_elem_of_In.
Qed.

Lemma order_by_id_of_sorted (l : list Book) :
  StronglySorted id_lt l -> order_by_id l = l.
Proof.
  induction 1 as [|x l Hsorted IH Hall]; [done|].
  change (order_by_id (x :: l)) with (insert_by_id x (order_by_id l)).
  rewrite IH. destruct l as [|y l]; cbn; [done|].
  apply Forall_cons in Hall as [Hxy _]. unfold id_lt in Hxy.
  by rewrite (proj2 (Z.ltb_lt _ _) Hxy).
Qed.

Lemma sql_select_all_in_order {E : Engine} (author : option string) (t : Table) :
  ids_increasing t ->
  sql_select_all
    (match author with
     | Some a => if bool_decide (a <> "") then Some a else None
     | None => None
     end) t
  = List.filter (selects author) (rows t).
Proof.
  intros (_ & _ & Hinc). unfold sql_select_all.
  rewrite order_by_id_of_sorted by by apply filter_sorted, increasing_sorted.
  apply filter_ext. intros r. unfold selects.
  destruct author as [a|]; [|done]. by destruct (bool_decide (a <> "")).
Qed.

Lemma reachable_listing {E : Engine} (s : Sys) (author : option string) :
  reachable s ->
  fst (mysql.GetAll author 0 0 (s_db s))
  = Ok (List.filter (selects author) (rows (s_db s))).
Proof.
  intros Hreach. apply reachable_ids_increasing in Hreach.
  unfold mysql.GetAll. cbn. by rewrite sql_select_all_in_order.
Qed.

(** X5. In every reachable state the unpaginated repository listing is the
    table in creation order with the soft-deleted rows left out, and under a
    non-empty filter also the rows whose author differs from the filter
    under the collation of the column. *)
Theorem listing_in_creation_order {E : Engine} (s : Sys) (author : option string) :
  reachable s ->
  fst (mysql.GetAll author 0 0 (s_db s))
  = Ok (List.filter (selects author) (rows (s_db s))).
Proof. apply reachable_listing. Qed.

Lemma listing_in_creation_order_witness :
  fst (mysql.GetAll None 0 0 (s_db deleted_dune))
  = Ok (List.filter (selects None) (rows (s_db deleted_dune))).
Proof.
  apply listing_in_creation_order.
  by exists false, [ACall (CallCreate 1000 sample_book);
                    ACall (CallDelete 2000 1)].
Defined.

(** X6. In every reachable state a Create whose values the engine accepts
    and whose triple, as the columns take it, no row holds under the
    collation of the table puts the new row, with each value as its column
    took it, at the end of the unfiltered listing and leaves the listing
    before it as it was. *)
Theorem created_book_is_listed_last {E : Engine}
    (s : Sys) (now : Time) (book v : Book) (all : list Book) :
  reachable s ->
  insert_values (with_times now now book) = inr v ->
  existsb (same_key v) (rows (s_db s)) = false ->
  fst (mysql.GetAll None 0 0 (s_db s)) = Ok all ->
  fst (mysql.GetAll None 0 0 (s_db (snd (call (CallCreate now book) s))))
  = Ok (all ++ [inserted_row (auto_increment (s_db s)) v]).
Proof.
  intros Hreach Hvalues Hfresh Hall.
  assert (Hreach' : reachable (snd (call (CallCreate now book) s))).
  { destruct Hreach as (wc & acts & ->).
    exists wc, (acts ++ [ACall (CallCreate now book)]).
    unfold run. by rewrite foldl_app. }
  rewrite reachable_listing in Hall by done.
  rewrite reachable_listing by done.
  injection Hall as <-. f_equal.
  unfold call, serve. unfold mbind at 1, M_bind at 1.
  rewrite (Create_fresh_key _ _ _ v) by done. cbn.
  by rewrite List.filter_app.
Qed.

Lemma created_book_is_listed_last_witness :
  fst (mysql.GetAll None 0 0
         (s_db (snd (call (CallCreate 9000 third_book) two_books))))
  = Ok (rows (s_db two_books)
        ++ [inserted_row 3 (with_times 9000 9000 third_book)]).
Proof.
  apply (created_book_is_listed_last two_books 9000 third_book).
  - by exists true, [ACall (CallCreate 1000 sample_book);
                     ACall (CallCreate 4000 other_book)].
  - vm_compute. reflexivity.
  - vm_compute. reflexivity.
  - reflexivity.
Defined.

(** ** Update and Delete: edges and composition *)

Lemma find_map_targets (id : Z) (g : Book -> Book) (l : list Book) :
  (forall r, targets id (g r) = targets id r) ->
  find (targets id) (map g l) = g <$> find (targets id) l.
Proof.
  intros Hg. induction l as [|x l IH]; cbn; [done|].
  rewrite Hg. by destruct (targets id x).
Qed.

Lemma sql_select_by_id_find (id : Z) (t : Table) :
  sql_select_by_id id t
  = match find (targets id) (rows t) with
    | Some r => inr r
    | None => inl ErrNoRows
    end.
Proof. reflexivity. Qed.

Lemma find_existsb {A} (f : A -> bool) (l : list A) :
  existsb f l = match find f l with Some _ => true | None => false end.
Proof. induction l as [|x l IH]; cbn; [done|]. by destruct (f x). Qed.

Lemma not_target_gone (id : Z) (r : Book) :
  targets id r = false -> ID r = id -> is_Some (DeletedAt r).
Proof.
  unfold targets, active. intros Htarget Hid.
  rewrite (bool_decide_eq_true_2 (ID r = id)) in Htarget by done.
  cbn in Htarget. apply bool_decide_eq_false in Htarget.
  by destruct (DeletedAt r); [eauto|].
Qed.

Lemma soft_deleted_gone {E : Engine} (id : Z) (now : Time) (t t' : Table) :
  sql_soft_delete id now t = inr t' ->
  forall r, r ∈ rows t' -> ID r = id -> is_Some (DeletedAt r).
Proof.
  intros Hdel r' Hr' Hid.
  apply sql_soft_delete_rows in Hdel as [[Hnone ->]|(d & _ & _ & ->)].
  - apply (not_target_gone id); [|done]. by eapply no_target.
  - cbn in Hr'. apply list_elem_of_fmap in Hr' as (r & -> & Hr).
    destruct (targets id r) eqn:Htarget; cbn; [eauto|].
    by apply (not_target_gone id).
Qed.

Lemma Delete_ok {E : Engine} (cache : option Cache) (now : Time) (id : Z)
    (t t' : Table) (tr : list Event) :
  BookService.Delete cache now id t = (Ok tt, t', tr) ->
  (exists existing, sql_select_by_id id t = inr existing) /\
  sql_soft_delete id now t = inr t'.
Proof.
  unfold_service. unfold_mysql.
  destruct (sql_select_by_id id t) as [[]|existing]; try done.
  destruct (sql_soft_delete id now t) as [e|t2] eqn:Hdel; cbn; [done|].
  intros Heq. split; [eauto|].
  destruct cache; cbn in Heq; by inversion Heq.
Qed.

(** X7. A successful Delete(id) stamps deletedAt, with its clock reading as
    the column takes it, on the active row of that id and changes nothing
    else: the table keeps its length and counter, every other row and every
    other field stay as they were. *)
Theorem Delete_frame {E : Engine}
    (cache : option Cache) (now : Time) (id : Z) (t t' : Table)
    (tr : list Event) :
  BookService.Delete cache now id t = (Ok tt, t', tr) ->
  exists deletedAt,
    datetime6 now = Some deletedAt /\
    auto_increment t' = auto_increment t /\
    length (rows t') = length (rows t) /\
    forall i r, rows t !! i = Some r ->
      rows t' !! i
      = Some (if bool_decide (ID r = id /\ DeletedAt r = None)
              then {| ID := ID r; Title := Title r; Author := Author r;
                      ISBN := ISBN r; Description := Description r;
                      PublishedAt := PublishedAt r; CreatedAt := CreatedAt r;
                      UpdatedAt := UpdatedAt r; DeletedAt := Some deletedAt |}
              else r).
Proof.
  intros Hdel. apply Delete_ok in Hdel as [[existing Hsel] Hdel].
  apply sql_soft_delete_rows in Hdel as [[Hnone _]|(d & _ & Hd & ->)].
  { rewrite sql_select_by_id_find in Hsel. rewrite find_existsb in Hnone.
    by destruct (find (targets id) (rows t)). }
  exists d. split; [done|]. cbn.
  split; [done|]. split; [by rewrite length_map|].
  intros i r Hi. rewrite list_lookup_fmap, Hi. cbn. f_equal.
  unfold targets, active.
  destruct (decide (ID r = id)) as [Hid|Hid];
    destruct (decide (DeletedAt r = None)) as [Hnodel|Hnodel].
  - by rewrite !bool_decide_eq_true_2.
  - rewrite (bool_decide_eq_false_2 (DeletedAt r = None)) by done.
    rewrite (bool_decide_eq_false_2 (_ /\ _)) by tauto.
    by rewrite andb_false_r.
  - rewrite (bool_decide_eq_false_2 (ID r = id)) by done.
    by rewrite (bool_decide_eq_false_2 (_ /\ _)) by tauto.
  - rewrite (bool_decide_eq_false_2 (ID r = id)) by done.
    by rewrite (bool_decide_eq_false_2 (_ /\ _)) by tauto.
Qed.

Lemma Delete_frame_witness :
  let '(res, t', _) := BookService.Delete None 6000 1 (s_db two_books) in
  res = Ok tt /\ length (rows t') = length (rows (s_db two_books)).
Proof.
  destruct (BookService.Delete None 6000 1 (s_db two_books))
    as [[[[]|e] t'] tr] eqn:Hcall.
  - pose proof (Delete_frame _ _ _ _ _ _ Hcall) as (d & _ & _ & Hlen & _).
    done.
  - vm_compute in Hcall. discriminate.
Defined.

Lemma no_active_row {E : Engine}
    (cache : option Cache) (now now' : Time) (id : Z) (book : Book) (t : Table) :
  (forall r, r ∈ rows t -> ID r = id -> is_Some (DeletedAt r)) ->
  Title book <> "" -> Author book <> "" ->
  (let '(res, t', tr) := BookService.Update cache now now' id book t in
   fails_with res ErrBookNotFound /\ t' = t /\ spawned tr = []) /\
  (let '(res, t', tr) := BookService.Delete cache now id t in
   fails_with res ErrBookNotFound /\ t' = t /\ spawned tr = []).
Proof.
  intros Hgone Htitle Hauthor.
  pose proof (sql_select_by_id_none id t Hgone) as Hsel.
  split; unfold_service; unfold_mysql.
  - rewrite !bool_decide_eq_false_2 by done. rewrite Hsel. cbn.
    split; [|done]. by exists (WithStack ErrBookNotFound).
  - rewrite Hsel. cbn. split; [|done]. by exists (WithStack ErrBookNotFound).
Qed.

(** X8. An Update or Delete of an id that no row has, or whose row is
    soft-deleted, fails with NotFound after the repository's lookup, leaves
    the table as it was and starts no cache invalidation. *)
Theorem not_found_changes_nothing {E : Engine}
    (cache : option Cache) (now now' : Time) (id : Z) (book : Book) (t : Table) :
  (forall r, r ∈ rows t -> ID r = id -> is_Some (DeletedAt r)) ->
  Title book <> "" -> Author book <> "" ->
  (let '(res, t', tr) := BookService.Update cache now now' id book t in
   fails_with res ErrBookNotFound /\ t' = t /\ spawned tr = []) /\
  (let '(res, t', tr) := BookService.Delete cache now id t in
   fails_with res ErrBookNotFound /\ t' = t /\ spawned tr = []).
Proof. apply no_active_row. Qed.

Lemma not_found_changes_nothing_witness :
  fails_with (fst (fst (BookService.Delete None 7000 1 (s_db deleted_dune))))
             ErrBookNotFound.
Proof.
  assert (Hgone : forall r, r ∈ rows (s_db deleted_dune) -> ID r = 1 ->
                            is_Some (DeletedAt r)).
  { intros r Hr _. rewrite deleted_dune_rows in Hr.
    apply list_elem_of_singleton in Hr as ->. cbn. eauto. }
  pose proof (not_found_changes_nothing None 7000 7001 1 renamed_book
                (s_db deleted_dune) Hgone) as [_ Hdel]; [done|done|].
  destruct (BookService.Delete None 7000 1 (s_db deleted_dune))
    as [[res t'] tr].
  exact (proj1 Hdel).
Defined.

(** X9. Deletion is not idempotent and is final at the repository: after a
    successful Delete(id), whatever the cache holds, a second Delete(id) and
    an Update(id, ...) fail with NotFound and change nothing, and the
    repository's GetByID(id) fails with NotFound. *)
Theorem Delete_is_final {E : Engine}
    (cache cache' : option Cache) (now now1 now2 : Time) (id : Z) (book : Book)
    (t t' : Table) (tr : list Event) :
  BookService.Delete cache now id t = (Ok tt, t', tr) ->
  Title book <> "" -> Author book <> "" ->
  fails_with (fst (mysql.GetByID id t')) ErrBookNotFound /\
  (let '(res, t2, _) := BookService.Delete cache' now1 id t' in
   fails_with res ErrBookNotFound /\ t2 = t') /\
  (let '(res, t2, _) := BookService.Update cache' now1 now2 id book t' in
   fails_with res ErrBookNotFound /\ t2 = t').
Proof.
  intros Hdel Htitle Hauthor.
  assert (Hgone : forall r, r ∈ rows t' -> ID r = id -> is_Some (DeletedAt r)).
  { apply Delete_ok in Hdel as [_ Hdel]. by eapply soft_deleted_gone. }
  pose proof (no_active_row cache' now1 now2 id book t' Hgone
                Htitle Hauthor) as [Hup Hdel2].
  split; [|split].
  - unfold mysql.GetByID. rewrite (sql_select_by_id_none id t' Hgone).
    by exists ErrBookNotFound.
  - destruct (BookService.Delete cache' now1 id t') as [[res t2] tr2]. tauto.
  - destruct (BookService.Update cache' now1 now2 id book t') as [[res t2] tr2].
    tauto.
Qed.

Lemma Delete_is_final_witness :
  fails_with (fst (mysql.GetByID 1
                     (snd (fst (BookService.Delete None 6000 1 (s_db two_books))))))
             ErrBookNotFound.
Proof.
  destruct (BookService.Delete None 6000 1 (s_db two_books))
    as [[[[]|e] t'] tr] eqn:Hcall.
  - cbn [fst snd].
    by destruct (Delete_is_final None None 6000 6001 6002 1 renamed_book
                   _ _ _ Hcall) as (Hget & _).
  - vm_compute in Hcall. discriminate.
Defined.

Lemma find_targets_some (id : Z) (l : list Book) (r : Book) :
  r ∈ l -> ID r = id -> DeletedAt r = None ->
  exists existing, find (targets id) l = Some existing.
Proof.
  intros Hr Hid Hd. destruct (find (targets id) l) as [x|] eqn:Hfind; [eauto|].
  exfalso. apply list_elem_of_In in Hr.
  pose proof (find_none _ _ Hfind r Hr) as Hnot.
  unfold targets, active in Hnot. by rewrite !bool_decide_eq_true_2 in Hnot.
Qed.

(** The service calls Repository.Update with [update_argument]. *)
Lemma Update_calls_repository {R : Type} `{BookRepository R}
    (cache : option Cache) (now now' : Time) (id : Z) (book : Book) (r : R) :
  Title book <> "" -> Author book <> "" ->
  BookService.Update cache now now' id book r
  = (updated ← call_repo (RUpdate id (update_argument now now' book))
                         (repo_Update id (update_argument now now' book));
     match updated with
     | Err err => mret (Err (WithStack err))
     | Ok updatedBook =>
         (if BookService.configured cache
          then go [CDelete (getByIDCacheKey id); CDelete (getAllCacheKey None)]
          else mret tt);;
         mret (Ok updatedBook)
     end) r.
Proof.
  intros Htitle Hauthor. unfold BookService.Update, update_argument.
  rewrite !bool_decide_eq_false_2 by done.
  destruct (IsZero (PublishedAt book)) eqn:Hzero; cbn [PublishedAt with_times];
    rewrite Hzero; [done|].
  by rewrite <- (with_published_same (with_times _ _ _)) at 1 2.
Qed.

(** X10. An Update whose values the engine accepts and that would give the
    active row of id a (title, author, isbn) triple that, as the columns
    take it, a row of another id holds under the collation of the table,
    active or soft-deleted, fails with AlreadyExists, leaves the table as it
    was and starts no cache invalidation. *)
Theorem Update_duplicate_refused {E : Engine}
    (cache : option Cache) (now now' : Time) (id : Z)
    (book v target other : Book) (t : Table) :
  Title book <> "" -> Author book <> "" ->
  target ∈ rows t -> ID target = id -> DeletedAt target = None ->
  update_values (update_argument now now' book) = inr v ->
  other ∈ rows t -> ID other <> id -> same_key v other = true ->
  let '(res, t', tr) := BookService.Update cache now now' id book t in
  fails_with res ErrBookAlreadyExists /\ t' = t /\ spawned tr = [].
Proof.
  intros Htitle Hauthor Htarget Hid Hactive Hvalues Hother Hne Hsame.
  destruct (find_targets_some id (rows t) target Htarget Hid Hactive)
    as [existing Hfind].
  rewrite Update_calls_repository by done.
  unfold_service. unfold_mysql.
  rewrite sql_select_by_id_find, Hfind. unfold sql_update.
  rewrite find_existsb, Hfind, Hvalues. unfold_sql.
  match goal with |- context [existsb ?f (rows t)] =>
    assert (Hconf : existsb f (rows t) = true) end.
  { apply existsb_exists. exists other.
    split; [by apply list_elem_of_In|].
    apply andb_true_iff. split; [done|].
    by rewrite bool_decide_eq_false_2. }
  rewrite Hconf. cbn. split; [|done]. by exists (WithStack ErrBookAlreadyExists).
Qed.

Lemma Update_duplicate_refused_witness :
  fails_with
    (fst (fst (BookService.Update None 5000 6000 2 sample_book (s_db two_books))))
    ErrBookAlreadyExists.
Proof.
  pose proof (Update_duplicate_refused None 5000 6000 2 sample_book
                (with_times 0 5000 sample_book)
                (inserted_row 2 (with_times 4000 4000 other_book))
                (inserted_row 1 (with_times 1000 1000 sample_book))
                (s_db two_books)) as Hthm.
  destruct (BookService.Update None 5000 6000 2 sample_book (s_db two_books))
    as [[res t'] tr].
  apply Hthm; try done.
  - apply list_elem_of_further, list_elem_of_here.
  - apply list_elem_of_here.
Defined.

Lemma updated_row_kept {E : Engine} (existing b v : Book) :
  update_values b = inr v ->
  updated_row v (mysql.updatedBook existing b) = mysql.updatedBook existing b
  <-> kept_update b.
Proof.
  intros Hvalues. unfold kept_update. rewrite Hvalues.
  apply update_values_spec in Hvalues as (Hid & Hcreated & Hdel & _). split.
  - intros Hrow. f_equal. destruct v, b.
    unfold updated_row, mysql.updatedBook in Hrow. cbn in *. congruence.
  - intros [= ->]. by destruct existing, b.
Qed.

(** X11. Update then read: after a successful Update(id, fields) the
    repository's GetByID(id), and the service's when no cache is configured,
    return the stored row, which is the book that Update returned with the
    six values of the call as their columns took them; and that is the book
    that Update returned exactly when the engine took the six values as they
    were. *)
Theorem Update_then_GetByID {E : Engine}
    (cache : option Cache) (now now' : Time) (id : Z) (book updated : Book)
    (t t' : Table) (tr : list Event) :
  BookService.Update cache now now' id book t = (Ok updated, t', tr) ->
  exists v,
    update_values (update_argument now now' book) = inr v /\
    fst (mysql.GetByID id t') = Ok (updated_row v updated) /\
    fst (fst (BookService.GetByID None id t')) = Ok (updated_row v updated) /\
    (updated_row v updated = updated
     <-> kept_update (update_argument now now' book)).
Proof.
  intros Hup.
  assert (Hvalid : Title book <> "" /\ Author book <> "").
  { revert Hup. unfold BookService.Update.
    do 2 (case_bool_decide; [done|]). done. }
  destruct Hvalid as [Htitle Hauthor].
  rewrite Update_calls_repository in Hup by done.
  assert (Hrepo : mysql.Update id (update_argument now now' book) t
                  = (Ok updated, t')).
  { revert Hup. unfold_service.
    destruct (repo_Update id _ t) as [[b'|e] t2] eqn:Hrepo; [|done].
    unfold repo_Update, mysql_BookRepository in Hrepo.
    intros Heq. rewrite Hrepo. destruct cache; cbn in Heq; by inversion Heq. }
  apply mysql_Update_ok in Hrepo as (existing & Hsel & Hsql & ->).
  rewrite sql_select_by_id_find in Hsel.
  destruct (find (targets id) (rows t)) as [r0|] eqn:Hfind; [|done].
  injection Hsel as ->.
  apply sql_update_rows in Hsql as [[Hnone _]|(v & _ & Hvalues & _ & ->)].
  { rewrite find_existsb, Hfind in Hnone. done. }
  exists v. split; [done|].
  assert (Hget : sql_select_by_id id
            {| rows := map (fun r => if targets id r then updated_row v r else r)
                           (rows t);
               auto_increment := auto_increment t |}
            = inr (updated_row v (mysql.updatedBook existing
                                    (update_argument now now' book)))).
  { rewrite sql_select_by_id_find. cbn [rows].
    rewrite find_map_targets, Hfind; cbn.
    - apply find_some in Hfind as [_ ->]. done.
    - intros r. destruct (targets id r) eqn:Hr; [|done].
      unfold targets, active in *. done. }
  split; [|split].
  - unfold mysql.GetByID. by rewrite Hget.
  - unfold_service. unfold_mysql. by rewrite Hget.
  - by apply updated_row_kept.
Qed.

Lemma Update_then_GetByID_witness :
  kept_update (update_argument 5000 6000 renamed_book) /\
  let '(res, t', _) :=
    BookService.Update None 5000 6000 1 renamed_book (s_db two_books) in
  is_ok res = true /\ fst (mysql.GetByID 1 t') = res.
Proof.
  assert (Hkept : kept_update (update_argument 5000 6000 renamed_book))
    by (vm_compute; reflexivity).
  split; [exact Hkept|].
  destruct (BookService.Update None 5000 6000 1 renamed_book (s_db two_books))
    as [[[updated|e] t'] tr] eqn:Hcall.
  - split; [done|].
    destruct (Update_then_GetByID _ _ _ _ _ _ _ _ _ Hcall)
      as (v & _ & Hget & _ & Hsame).
    rewrite Hget. f_equal. by apply Hsame.
  - vm_compute in Hcall. discriminate.
Defined.

(** With a clock reading that has nanoseconds the two differ. *)
Example Update_then_GetByID_nanoseconds :
  let '(res, t', _) :=
    BookService.Update None a_clock_reading 6000 1 sample_book (s_db two_books) in
  (UpdatedAt <$> match res with Ok b => Some b | Err _ => None end)
  = Some 63866000000123456789 /\
  (UpdatedAt <$> match fst (mysql.GetByID 1 t') with
                 | Ok b => Some b | Err _ => None end)
  = Some 63866000000123457000.
Proof. vm_compute. done. Qed.

(** X12. No partial side effects: a call that returns an error leaves the
    table exactly as it was and starts no goroutine, and GetByID and GetAll
    leave the table as it was whatever they return. *)
Theorem failed_calls_change_nothing {E : Engine}
    (cache : option Cache) (c : Call) (t : Table) :
  let '(reply, t', tr) := serve cache c t in
  (reply_ok reply = false -> t' = t /\ spawned tr = []) /\
  (is_mutation c = false -> t' = t).
Proof.
  destruct c as [now b|id|au l o|now now' id b|now id];
    unfold_service; unfold_mysql.
  - destruct (sql_insert _ t) as [e|[id t']] eqn:Hins; cbn.
    + by destruct (match e with MySQLError _ => _ | _ => _ end).
    + by destruct cache.
  - destruct cache as [c|]; cbn;
      [destruct (cache_Get_Book c _); cbn; [done|]|];
      by destruct (sql_select_by_id id t) as [[]|].
  - destruct cache as [c|]; cbn;
      [destruct (BookService.unpaginated l o); cbn;
       [destruct (cache_Get_Books c _); cbn; [done|]|]|]; done.
  - destruct (bool_decide (Title b = "")); [done|].
    destruct (bool_decide (Author b = "")); [done|].
    destruct (sql_select_by_id id t) as [[]|existing]; try done.
    match goal with |- context [sql_update id ?b t] =>
      destruct (sql_update id b t) as [e|t'] eqn:Hup end; cbn.
    + by destruct (match e with MySQLError _ => _ | _ => _ end).
    + by destruct cache.
  - destruct (sql_select_by_id id t) as [[]|existing]; try done.
    destruct (sql_soft_delete id now t) as [e|t'] eqn:Hdelete; cbn; [done|].
    by destruct cache.
Qed.

(** ** The cache along a run *)

(** X13. A GetAll with a limit or an offset bypasses the cache: its only
    collaborator call is Repository.GetAll, it reads no cache key and starts
    no goroutine, and it returns the repository's books, whatever the cache
    holds and for every repository. *)
Theorem paginated_GetAll_bypasses_cache {R : Type} `{BookRepository R}
    (cache : option Cache) (author : option string) (limit offset : Z) (r : R) :
  limit <> 0 \/ offset <> 0 ->
  let '(res, r', tr) := BookService.GetAll cache author limit offset r in
  tr = [EvRepo (RGetAll author limit offset)] /\
  r' = snd (repo_GetAll author limit offset r) /\
  same_result res (fst (repo_GetAll author limit offset r)).
Proof.
  intros Hpaged.
  assert (Hun : BookService.unpaginated limit offset = false).
  { unfold BookService.unpaginated.
    destruct Hpaged; [by rewrite (bool_decide_eq_false_2 (limit = 0))|].
    rewrite (bool_decide_eq_false_2 (offset = 0)) by done. apply andb_false_r. }
  unfold BookService.GetAll, BookService.configured, call_repo, cache_get, go,
    mbind, M_bind, mret, M_ret.
  rewrite Hun.
  destruct cache as [c|]; cbn;
    by destruct (repo_GetAll author limit offset r) as [[l|e] r'].
Qed.

Lemma paginated_GetAll_bypasses_cache_witness :
  snd (BookService.GetAll (s_cache stale_dune) None 5 0 (s_db stale_dune))
  = [EvRepo (RGetAll None 5 0)].
Proof.
  pose proof (paginated_GetAll_bypasses_cache (s_cache stale_dune) None 5 0
                (s_db stale_dune)) as Hthm.
  destruct (BookService.GetAll (s_cache stale_dune) None 5 0 (s_db stale_dune))
    as [[res t'] tr].
  apply Hthm. by left.
Defined.

Lemma run_own_task {E : Engine} (s : Sys) (reply : Reply) (db' : Table) (op : CacheOp)
    (rest : list CacheOp) (c : Cache) :
  s_cache s = Some c ->
  exec (ARun (length (s_pending s)))
       {| s_db := db'; s_cache := s_cache s;
          s_pending := s_pending s ++ [op :: rest] |}
  = {| s_db := db'; s_cache := Some (cache_apply op c);
       s_pending := s_pending s ++ [rest] |}.
Proof.
  intros Hc. cbn. rewrite lookup_app_r by lia.
  rewrite Nat.sub_diag. cbn. rewrite Hc. cbn. f_equal.
  rewrite insert_app_r_alt by lia. by rewrite Nat.sub_diag.
Qed.

(** X14. Read-through: when GetByID(id) misses a cache that answers and the
    repository returns a book, then once the goroutine of that call has run,
    the next GetByID(id) returns the same book from the cache alone: its only
    collaborator call is the cache Get, and the table is not read. *)
Theorem GetByID_populates_cache {E : Engine}
    (s : Sys) (c : Cache) (id : Z) (book : Book) :
  s_cache s = Some c -> c_up c = true ->
  is_ok (cache_Get_Book c (getByIDCacheKey id)) = false ->
  fst (mysql.GetByID id (s_db s)) = Ok book ->
  let s1 := snd (call (CallGetByID id) s) in
  let s2 := exec (ARun (length (s_pending s))) s1 in
  fst (call (CallGetByID id) s) = RBook (Ok book) /\
  BookService.GetByID (s_cache s2) id (s_db s2)
  = (Ok book, s_db s, [EvCacheGet (getByIDCacheKey id)]).
Proof.
  intros Hc Hup Hmiss Hrepo. cbv zeta.
  unfold mysql.GetByID in Hrepo.
  destruct (sql_select_by_id id (s_db s)) as [[]|b] eqn:Hsel; try done.
  cbn in Hrepo. injection Hrepo as ->.
  assert (Hcall : call (CallGetByID id) s
            = (RBook (Ok book),
               {| s_db := s_db s; s_cache := s_cache s;
                  s_pending := s_pending s
                    ++ [[CSet (getByIDCacheKey id) (CBook book) (Hour * 1)]] |})).
  { unfold call. unfold_service. unfold_mysql. rewrite Hc. cbn.
    destruct (cache_Get_Book c (getByIDCacheKey id)); [done|]. cbn.
    by rewrite Hsel. }
  rewrite Hcall. cbn [fst snd]. split; [done|].
  rewrite (run_own_task s (RBook (Ok book)) (s_db s) _ _ c Hc).
  cbn [s_cache s_db]. unfold_service. cbn.
  unfold cache_Get_Book, cache_Get, cache_apply. rewrite Hup. cbn.
  by rewrite lookup_insert_eq.
Qed.

Lemma GetByID_populates_cache_witness :
  BookService.GetByID
    (s_cache (exec (ARun 2) (snd (call (CallGetByID 2) two_books)))) 2
    (s_db (exec (ARun 2) (snd (call (CallGetByID 2) two_books))))
  = (Ok (inserted_row 2 (with_times 4000 4000 other_book)), s_db two_books,
     [EvCacheGet (getByIDCacheKey 2)]).
Proof.
  by apply (GetByID_populates_cache two_books
              {| c_store := ∅; c_up := true |} 2).
Defined.

Lemma run_task_at {E : Engine}
    (db : Table) (c : Cache) (pending : list (list CacheOp))
    (op : CacheOp) (rest : list CacheOp) :
  exec (ARun (length pending))
       {| s_db := db; s_cache := Some c; s_pending := pending ++ [op :: rest] |}
  = {| s_db := db; s_cache := Some (cache_apply op c);
       s_pending := pending ++ [rest] |}.
Proof.
  cbn. rewrite lookup_app_r by lia.
  rewrite Nat.sub_diag. cbn. f_equal.
  rewrite insert_app_r_alt by lia. by rewrite Nat.sub_diag.
Qed.

Lemma Delete_call {E : Engine} (s : Sys) (now : Time) (id : Z) :
  fst (call (CallDelete now id) s) = RUnit (Ok tt) ->
  exists t',
    sql_soft_delete id now (s_db s) = inr t' /\
    snd (call (CallDelete now id) s)
    = {| s_db := t'; s_cache := s_cache s;
         s_pending := s_pending s
           ++ (if BookService.configured (s_cache s)
               then [[CDelete (getByIDCacheKey id);
                      CDelete (getAllCacheKey None)]]
               else []) |}.
Proof.
  unfold call. unfold_service. unfold_mysql.
  destruct (sql_select_by_id id (s_db s)) as [[]|existing]; try done.
  destruct (sql_soft_delete id now (s_db s)) as [e|t'] eqn:Hdel; cbn; [done|].
  intros _. exists t'. split; [done|]. by destruct (s_cache s).
Qed.

(** One step of a goroutine keeps a key on its way out of the cache: when
    goroutine [n] still is to delete [key], or the cache holds nothing under
    it, and no goroutine is about to store under it, the same holds after
    the step. *)
Lemma exec_invalidates {E : Engine} (key : string) (n i : nat) (s : Sys) :
  no_pending_set key s ->
  (exists c, s_cache s = Some c /\ c_up c = true /\
     exists task, s_pending s !! n = Some task /\
       (CDelete key ∈ task \/ c_store c !! key = None)) ->
  s_db (exec (ARun i) s) = s_db s /\
  no_pending_set key (exec (ARun i) s) /\
  exists c, s_cache (exec (ARun i) s) = Some c /\ c_up c = true /\
    exists task, s_pending (exec (ARun i) s) !! n = Some task /\
      (CDelete key ∈ task \/ c_store c !! key = None).
Proof.
  intros Hnoset (c & Hc & Hup & task & Hn & Hkey). cbn.
  destruct (s_pending s !! i) as [[|op rest]|] eqn:Hi;
    [by eauto 10| |by eauto 10].
  assert (Hin : (op :: rest) ∈ s_pending s)
    by (apply list_elem_of_lookup; eauto).
  cbn. split; [done|]. split.
  { intros task' v e Htask' Hop.
    apply elem_of_insert_inv in Htask' as [->|Htask'].
    - apply (Hnoset (op :: rest) v e Hin). by apply list_elem_of_further.
    - by apply (Hnoset task' v e Htask'). }
  rewrite Hc. cbn. eexists. split; [done|].
  assert (Hup' : c_up (cache_apply op c) = true).
  { unfold cache_apply. rewrite Hup. by destruct op. }
  split; [done|].
  assert (Hkeep : c_store c !! key = None ->
                  c_store (cache_apply op c) !! key = None).
  { intros Hnone. unfold cache_apply. rewrite Hup.
    destruct op as [k v e|k]; cbn.
    - rewrite lookup_insert_ne; [done|]. intros ->.
      apply (Hnoset (CSet key v e :: rest) v e Hin). apply list_elem_of_here.
    - destruct (decide (k = key)) as [->|Hne];
        [apply lookup_delete_eq | by rewrite lookup_delete_ne]. }
  destruct (decide (i = n)) as [->|Hne].
  - rewrite Hn in Hi. injection Hi as ->.
    exists rest. split.
    { apply list_lookup_insert_eq. by eapply lookup_lt_Some. }
    destruct Hkey as [Hdel|Hnone]; [|right; by apply Hkeep].
    apply elem_of_cons in Hdel as [<-|Hdel]; [|by left].
    right. unfold cache_apply. rewrite Hup. cbn. apply lookup_delete_eq.
  - exists task. split; [by rewrite list_lookup_insert_ne|].
    destruct Hkey as [Hdel|Hnone]; [by left | right; by apply Hkeep].
Qed.

Lemma run_invalidates {E : Engine}
    (key : string) (n : nat) (acts : list Action) (s : Sys) :
  only_runs acts = true ->
  no_pending_set key s ->
  (exists c, s_cache s = Some c /\ c_up c = true /\
     exists task, s_pending s !! n = Some task /\
       (CDelete key ∈ task \/ c_store c !! key = None)) ->
  s_db (run acts s) = s_db s /\
  exists c, s_cache (run acts s) = Some c /\
    exists task, s_pending (run acts s) !! n = Some task /\
      (CDelete key ∈ task \/ c_store c !! key = None).
Proof.
  revert s. induction acts as [|a acts IH]; intros s Hruns Hnoset Hinv.
  - destruct Hinv as (c & Hc & _ & Htask). eauto.
  - cbn in Hruns. apply andb_true_iff in Hruns as [Ha Hruns].
    destruct a as [|i| | |]; try done.
    destruct (exec_invalidates key n i s Hnoset Hinv) as (Hdb & Hnoset' & Hinv').
    destruct (IH (exec (ARun i) s) Hruns Hnoset' Hinv') as [Hdb' Hend].
    split; [|exact Hend].
    change (run (ARun i :: acts) s) with (run acts (exec (ARun i) s)).
    by rewrite Hdb'.
Qed.

(** X15. Invalidation closes the stale window when no write to the cache is
    under way: after a successful Delete(id) on a cache that answers, and
    however the goroutines are scheduled after it, once the goroutine of
    that call has run its two deletions the cache holds no entry under a key
    of the call that no goroutine pending at the call was about to store;
    and when that is so for the key of the book, GetByID(id) fails with
    NotFound. *)
Theorem Delete_then_invalidated {E : Engine}
    (s : Sys) (c : Cache) (now : Time) (id : Z) (acts : list Action) :
  s_cache s = Some c -> c_up c = true ->
  fst (call (CallDelete now id) s) = RUnit (Ok tt) ->
  only_runs acts = true ->
  let s2 := run acts (snd (call (CallDelete now id) s)) in
  s_pending s2 !! length (s_pending s) = Some [] ->
  (forall key, key ∈ invalidated (CallDelete now id) ->
     no_pending_set key s ->
     exists c2, s_cache s2 = Some c2 /\ c_store c2 !! key = None) /\
  (no_pending_set (getByIDCacheKey id) s ->
     fails_with (fst (fst (BookService.GetByID (s_cache s2) id (s_db s2))))
                ErrBookNotFound).
Proof.
  intros Hc Hup Hok Hruns. cbv zeta.
  apply Delete_call in Hok as (t' & Hdel & ->).
  rewrite Hc. cbn [BookService.configured]. intros Hdone.
  set (s1 := {| s_db := t'; s_cache := Some c;
                s_pending := s_pending s
                  ++ [[CDelete (getByIDCacheKey id);
                       CDelete (getAllCacheKey None)]] |}) in *.
  assert (Hgone : forall key,
    key ∈ invalidated (CallDelete now id) -> no_pending_set key s ->
    s_db (run acts s1) = t' /\
    exists c2, s_cache (run acts s1) = Some c2 /\ c_store c2 !! key = None).
  { intros key Hkey Hnoset.
    destruct (run_invalidates key (length (s_pending s)) acts s1 Hruns)
      as (Hdb & c2 & Hc2 & task & Htask & Hend).
    - intros task v e Htask Hop. subst s1. cbn in Htask.
      apply elem_of_app in Htask as [Htask|Htask];
        [by apply (Hnoset task v e)|].
      apply list_elem_of_singleton in Htask as ->.
      repeat (apply elem_of_cons in Hop as [Hop|Hop]; [discriminate|]).
      by apply elem_of_nil in Hop.
    - exists c. split; [done|]. split; [done|]. eexists. split.
      + subst s1. cbn. rewrite lookup_app_r by lia.
        by rewrite Nat.sub_diag.
      + left. cbn in Hkey. unfold getByIDCacheKey, getAllCacheKey.
        apply elem_of_cons in Hkey as [->|Hkey]; [apply list_elem_of_here|].
        apply list_elem_of_singleton in Hkey as ->.
        apply list_elem_of_further, list_elem_of_here.
    - split; [done|]. exists c2. split; [done|].
      rewrite Hdone in Htask. injection Htask as <-.
      destruct Hend as [Hin|Hnone]; [by apply elem_of_nil in Hin | done]. }
  split.
  - intros key Hkey Hnoset. by destruct (Hgone key Hkey Hnoset) as [_ Hc2].
  - intros Hnoset.
    destruct (Hgone (getByIDCacheKey id)) as (Hdb & c2 & Hc2 & Hnone);
      [apply list_elem_of_here|done|].
    rewrite Hc2, Hdb.
    unfold BookService.GetByID, BookService.configured, call_repo, cache_get, go,
      mbind, M_bind, mret, M_ret.
    unfold cache_Get_Book, cache_Get. rewrite Hnone. unfold_mysql.
    destruct (c_up c2); cbn;
      rewrite (sql_select_by_id_none id t' (soft_deleted_gone _ _ _ _ Hdel));
      cbn; by exists (WithStack ErrBookNotFound).
Qed.

(** The goroutine of the Delete runs between those of two earlier calls. *)
Lemma Delete_then_invalidated_witness :
  let s := run [ACall (CallCreate 1000 sample_book); ACall (CallGetByID 1);
                ARun 1; ACall (CallGetAll None 0 0)] (init true) in
  let s2 := run [ARun 0; ARun 3; ARun 2; ARun 3]
                (snd (call (CallDelete 2000 1) s)) in
  is_Some (s_cache s ≫= fun c => c_store c !! getByIDCacheKey 1) /\
  fails_with (fst (fst (BookService.GetByID (s_cache s2) 1 (s_db s2))))
             ErrBookNotFound.
Proof.
  cbv zeta.
  set (s := run [ACall (CallCreate 1000 sample_book); ACall (CallGetByID 1);
                 ARun 1; ACall (CallGetAll None 0 0)] (init true)).
  split; [vm_compute; eauto|].
  pose proof (Delete_then_invalidated s
                {| c_store := {[ getByIDCacheKey 1 :=
                     CBook (inserted_row 1 (with_times 1000 1000 sample_book)) ]};
                   c_up := true |}
                2000 1 [ARun 0; ARun 3; ARun 2; ARun 3]) as Hthm.
  cbv zeta in Hthm.
  destruct Hthm as [_ Hthm]; try (vm_compute; reflexivity).
  apply Hthm. intros task v e Htask Hop.
  assert (Hpending : s_pending s
            = [[CDelete (getAllCacheKey None)]; [];
               [CSet (getAllCacheKey None)
                     (CBooks [inserted_row 1 (with_times 1000 1000 sample_book)])
                     (Hour * 1)]])
    by (vm_compute; reflexivity).
  rewrite Hpending in Htask.
  repeat (apply elem_of_cons in Htask as [->|Htask];
          [repeat (apply elem_of_cons in Hop as [Hop|Hop]; [discriminate|]);
           by apply elem_of_nil in Hop|]).
  by apply elem_of_nil in Htask.
Defined.

Lemma mutation_call {E : Engine} (s : Sys) (c : Call) :
  is_mutation c = true ->
  exists t' task,
    snd (call c s)
    = {| s_db := t'; s_cache := s_cache s;
         s_pending := s_pending s ++ (if BookService.configured (s_cache s)
                                      then task else []) |} /\
    (task = [] \/
     task = [[CDelete (getAllCacheKey None)]] \/
     exists id, task = [[CDelete (getByIDCacheKey id);
                         CDelete (getAllCacheKey None)]]).
Proof.
  intros Hmut. unfold call.
  destruct c as [now b|id|au l o|now now' id b|now id]; try done;
    unfold_service; unfold_mysql.
  - destruct (sql_insert _ (s_db s)) as [e|[id t']]; cbn.
    + exists (s_db s), []. split; [|by left].
      destruct (match e with MySQLError _ => _ | _ => _ end); cbn;
        destruct (s_cache s); cbn; by rewrite ?app_nil_r.
    + exists t', [[CDelete (getAllCacheKey None)]]. split; [|by right; left].
      by destruct (s_cache s).
  - destruct (bool_decide (Title b = ""));
      [exists (s_db s), []; split; [|by left]; cbn;
       destruct (s_cache s); cbn; by rewrite ?app_nil_r|].
    destruct (bool_decide (Author b = ""));
      [exists (s_db s), []; split; [|by left]; cbn;
       destruct (s_cache s); cbn; by rewrite ?app_nil_r|].
    destruct (sql_select_by_id id (s_db s)) as [[]|existing];
      try (exists (s_db s), []; split; [|by left]; cbn;
           destruct (s_cache s); cbn; by rewrite ?app_nil_r).
    match goal with |- context [sql_update id ?b (s_db s)] =>
      destruct (sql_update id b (s_db s)) as [e|t'] end; cbn.
    + exists (s_db s), []. split; [|by left].
      destruct (match e with MySQLError _ => _ | _ => _ end); cbn;
        destruct (s_cache s); cbn; by rewrite ?app_nil_r.
    + exists t', [[CDelete (getByIDCacheKey id); CDelete (getAllCacheKey None)]].
      split; [|right; right; by exists id]. by destruct (s_cache s).
  - destruct (sql_select_by_id id (s_db s)) as [[]|existing];
      try (exists (s_db s), []; split; [|by left]; cbn;
           destruct (s_cache s); cbn; by rewrite ?app_nil_r).
    destruct (sql_soft_delete id now (s_db s)) as [e|t']; cbn.
    + exists (s_db s), []. split; [|by left].
      destruct (s_cache s); cbn; by rewrite ?app_nil_r.
    + exists t', [[CDelete (getByIDCacheKey id); CDelete (getAllCacheKey None)]].
      split; [|right; right; by exists id]. by destruct (s_cache s).
Qed.

Lemma run_no_task {E : Engine}
    (db : Table) (c : option Cache) (pending : list (list CacheOp)) :
  exec (ARun (length pending))
       {| s_db := db; s_cache := c; s_pending := pending |}
  = {| s_db := db; s_cache := c; s_pending := pending |}.
Proof. cbn. by rewrite lookup_ge_None_2. Qed.

Lemma run_finished_task {E : Engine} (db : Table) (c : option Cache)
    (pending : list (list CacheOp)) :
  exec (ARun (length pending))
       {| s_db := db; s_cache := c; s_pending := pending ++ [[]] |}
  = {| s_db := db; s_cache := c; s_pending := pending ++ [[]] |}.
Proof.
  cbn. rewrite lookup_app_r by lia. by rewrite Nat.sub_diag.
Qed.

Lemma delete_other_key (c : Cache) (key other : string) :
  other <> key ->
  c_store (cache_apply (CDelete key) c) !! other = c_store c !! other /\
  c_up (cache_apply (CDelete key) c) = c_up c.
Proof.
  intros Hne. unfold cache_apply. destruct (c_up c) eqn:Hup; cbn; [|done].
  by rewrite lookup_delete_ne.
Qed.

(** X16. Author-filtered listings are never invalidated: when the cache
    answers and holds a listing under books:books:getall:author:<author>,
    then after any Create, Update or Delete and after the goroutine of that
    call has run, GetAll with that author still returns the cached listing,
    from the cache alone. *)
Theorem author_listing_stays_cached {E : Engine}
    (s : Sys) (c : Cache) (mutation : Call) (author : string) (l : list Book) :
  s_cache s = Some c -> c_up c = true -> author <> "" ->
  c_store c !! getAllCacheKey (Some author) = Some (CBooks l) ->
  is_mutation mutation = true ->
  let n := length (s_pending s) in
  let s2 := exec (ARun n) (exec (ARun n) (snd (call mutation s))) in
  BookService.GetAll (s_cache s2) (Some author) 0 0 (s_db s2)
  = (Ok l, s_db s2, [EvCacheGet (getAllCacheKey (Some author))]).
Proof.
  intros Hc Hup Hauthor Hentry Hmut. cbv zeta.
  destruct (mutation_call s mutation Hmut) as (t' & task & -> & Htask).
  rewrite Hc. cbn [BookService.configured].
  assert (Hkey : getAllCacheKey (Some author)
                 = "books:books:getall:author:" +:+ author)
    by by apply getAllCacheKey_author.
  assert (Hserved : forall c2,
    c_up c2 = true ->
    c_store c2 !! getAllCacheKey (Some author) = Some (CBooks l) ->
    BookService.GetAll (Some c2) (Some author) 0 0 t'
    = (Ok l, t', [EvCacheGet (getAllCacheKey (Some author))])).
  { intros c2 Hup2 Hentry2.
    unfold BookService.GetAll, BookService.configured, call_repo, cache_get,
      go, mbind, M_bind, mret, M_ret. cbn [BookService.unpaginated].
    unfold BookService.unpaginated. cbn [bool_decide andb].
    unfold cache_Get_Books, cache_Get. by rewrite Hup2, Hentry2. }
  destruct Htask as [->|[->|[id ->]]].
  - rewrite app_nil_r, !run_no_task. cbn [s_cache s_db]. by eapply Hserved.
  - rewrite run_task_at, run_finished_task. cbn [s_cache s_db].
    destruct (delete_other_key c (getAllCacheKey None)
                (getAllCacheKey (Some author))) as [Hs Hu].
    { rewrite Hkey. apply author_key_not_all. }
    eapply Hserved; congruence.
  - rewrite !run_task_at. cbn [s_cache s_db].
    destruct (delete_other_key c (getByIDCacheKey id)
                (getAllCacheKey (Some author))) as [Hs1 Hu1].
    { rewrite Hkey. apply author_key_not_byid. }
    destruct (delete_other_key (cache_apply (CDelete (getByIDCacheKey id)) c)
                (getAllCacheKey None)
                (getAllCacheKey (Some author))) as [Hs2 Hu2].
    { rewrite Hkey. apply author_key_not_all. }
    eapply Hserved; congruence.
Qed.

Lemma author_listing_stays_cached_witness :
  fst (fst (BookService.GetAll
              (s_cache (exec (ARun 2) (exec (ARun 2)
                 (snd (call (CallCreate 3000 third_book)
                         (run [ACall (CallCreate 1000 sample_book);
                               ACall (CallGetAll (Some "Frank Herbert") 0 0);
                               ARun 1] (init true)))))))
              (Some "Frank Herbert") 0 0
              (s_db (exec (ARun 2) (exec (ARun 2)
                 (snd (call (CallCreate 3000 third_book)
                         (run [ACall (CallCreate 1000 sample_book);
                               ACall (CallGetAll (Some "Frank Herbert") 0 0);
                               ARun 1] (init true)))))))))
  = Ok [inserted_row 1 (with_times 1000 1000 sample_book)].
Proof.
  assert (Hthm := author_listing_stays_cached
             (run [ACall (CallCreate 1000 sample_book);
                   ACall (CallGetAll (Some "Frank Herbert") 0 0);
                   ARun 1] (init true))
             {| c_store := {[ getAllCacheKey (Some "Frank Herbert") :=
                  CBooks [inserted_row 1 (with_times 1000 1000 sample_book)] ]};
                c_up := true |}
             (CallCreate 3000 third_book) "Frank Herbert"
             [inserted_row 1 (with_times 1000 1000 sample_book)]
             eq_refl eq_refl).
  apply (f_equal (fun x => fst (fst x))) in Hthm; [exact Hthm|done|reflexivity|reflexivity].
Defined.

(** ** Errors on the wire *)

Lemma Cause_Cause (e : error) : Cause (Cause e) = Cause e.
Proof. induction e; cbn; done. Qed.

Lemma Cause_not_wrapped (e : error) :
  (forall e', Cause e <> WithStack e') /\ (forall e' msg, Cause e <> Wrap e' msg).
Proof. induction e; cbn; done. Qed.

(** X17. The status of a failed request depends on the cause of its error
    alone, however often the error was wrapped on its way up: 404 exactly for
    NotFound, 400 exactly for InvalidData, AlreadyExists and validation
    errors, and 500 for every other cause. *)
Theorem status_follows_cause (err : error) (msg : string) :
  let code := status (api.ErrorHandler (Err err)) in
  api.ErrorHandler (Err (WithStack err)) = api.ErrorHandler (Err err) /\
  api.ErrorHandler (Err (Wrap err msg)) = api.ErrorHandler (Err err) /\
  (code = 404 <-> Cause err = ErrBookNotFound) /\
  (code = 400 <->
     Cause err = ErrInvalidBookData \/ Cause err = ErrBookAlreadyExists \/
     exists msgs, Cause err = ErrValidation msgs) /\
  (code <> 404 -> code <> 400 -> code = 500).
Proof.
  cbv zeta. split; [done|]. split; [done|].
  unfold api.ErrorHandler, api.getCodeByErr, status.
  rewrite Cause_Cause.
  destruct (Cause_not_wrapped err) as [Hws Hwrap].
  destruct (Cause err) eqn:Hcause; cbn;
    unfold api.StatusBadRequest, api.StatusNotFound,
           api.StatusInternalServerError;
    try (by exfalso; eapply Hws); try (by exfalso; eapply Hwrap);
    repeat match goal with
           | |- _ /\ _ => split
           | |- _ <-> _ => split
           | |- _ -> _ => intro
           | H : _ \/ _ |- _ => destruct H
           | H : exists _, _ |- _ => destruct H
           end;
    try done; try lia; eauto.
Qed.

(** X18. A path id that is not a decimal numeral within int64 is refused
    before the body is bound and before the service is reached: GET, PUT
    and DELETE by id answer 400 with cause InvalidData, make no collaborator
    call and leave the repository as it was, for every repository and
    whatever the body holds. *)
Theorem bad_id_is_bad_request {R : Type} `{BookRepository R}
    (cache : option Cache) (parse_date : string -> option Time)
    (now now' : Time) (idParam : string) (bound : result CreateBookRequest)
    (r : R) :
  ParseInt64 idParam = None ->
  forall rq, rq = GET_book idParam \/ rq = PUT_book idParam bound \/
             rq = DELETE_book idParam ->
  api.Routes cache parse_date now now' rq r
  = (HTTPError 400 ErrInvalidBookData, r, []).
Proof.
  intros Hbad rq [-> | [-> | ->]]; unfold api.Routes, BookController.GetByID,
    BookController.Update, BookController.Delete;
    rewrite Hbad; reflexivity.
Qed.

Lemma bad_id_is_bad_request_witness :
  api.Routes None (fun _ => None) 1 2 (GET_book "invalid") empty_table
  = (HTTPError 400 ErrInvalidBookData, empty_table, []).
Proof.
  apply (bad_id_is_bad_request None (fun _ => None) 1 2 "invalid"
           (Err (ErrEcho 400)));
    [reflexivity|by left].
Defined.

Lemma validation_passes (title author published : string) :
  validate.HasErrors
    (validate.Required "publishedAt" published
       (validate.Required "author" author
          (validate.Required "title" title validate.New)))
  = bool_decide (title = "") || bool_decide (author = "")
    || bool_decide (published = "").
Proof.
  unfold validate.HasErrors, validate.Required, validate.New.
  repeat case_bool_decide; cbn in *; rewrite ?length_app in *; cbn in *;
    try done; lia.
Qed.

(** X19. POST /books answers, in this order: 500 when [ctx.Bind] fails, its
    [*echo.HTTPError] being no cause that the middleware knows; 400 with a
    validation error when title, author or publishedAt is empty, and 400
    with cause InvalidData when publishedAt does not parse as a date; all
    three without any collaborator call; 500 with the error of the driver
    when the engine refuses a value, such as one wider than its column on a
    server in strict mode; 400 with cause AlreadyExists when a stored row,
    active or soft-deleted, holds the triple, as the columns take it, under
    the collation of the table; and otherwise 201 with the created book,
    which carries the next id and the clock reading as createdAt and
    updatedAt, while the row appended to the table holds each value as its
    column took it. *)
Theorem POST_status {E : Engine}
    (cache : option Cache) (parse_date : string -> option Time)
    (now now' : Time) (bound : result CreateBookRequest) (t : Table) :
  let '(resp, t', tr) :=
    api.Routes cache parse_date now now' (POST_book bound) t in
  match bound with
  | Err (ErrEcho code) => resp = HTTPError 500 (ErrEcho code) /\ t' = t /\ tr = []
  | Err err => resp = api.ErrorHandler (Err err) /\ t' = t /\ tr = []
  | Ok req =>
      if bool_decide (req_Title req = "") || bool_decide (req_Author req = "")
         || bool_decide (req_PublishedAt req = "")
      then (exists msgs, resp = HTTPError 400 (ErrValidation msgs))
           /\ t' = t /\ tr = []
      else
        match parse_date (req_PublishedAt req) with
        | None => resp = HTTPError 400 ErrInvalidBookData /\ t' = t /\ tr = []
        | Some published =>
            let book := BookController.book_of_request req published in
            match insert_values (with_times now now book) with
            | inl e => resp = HTTPError 500 (ErrSQL e) /\ t' = t
            | inr v =>
                if existsb (same_key v) (rows t)
                then resp = HTTPError 400 ErrBookAlreadyExists /\ t' = t
                else resp = JSON 201 (JBook (set_id (auto_increment t)
                                                    (with_times now now book)))
                     /\ rows t' = rows t ++ [inserted_row (auto_increment t) v]
            end
        end
  end.
Proof.
  unfold api.Routes, BookController.Create.
  destruct bound as [req|err].
  2: { unfold mbind, M_bind, mret, M_ret; cbn. by destruct err. }
  rewrite validation_passes.
  destruct (_ || _ || _);
    [unfold mbind, M_bind, mret, M_ret; cbn; eauto|].
  destruct (parse_date (req_PublishedAt req)) as [published|];
    [|unfold mbind, M_bind, mret, M_ret; by cbn].
  cbv zeta.
  destruct (insert_values _) as [e|v] eqn:Hvalues.
  - pose proof (insert_values_refused _ _ Hvalues) as Hnodup.
    unfold_service. unfold_mysql. unfold sql_insert. unfold_sql.
    rewrite Hvalues, Hnodup. by cbn.
  - destruct (existsb _ (rows t)) eqn:Hheld.
    + unfold_service. unfold_mysql. unfold sql_insert. unfold_sql.
      rewrite Hvalues, same_key_inserted_row, Hheld. by cbn.
    + unfold mbind at 1, M_bind at 1.
      rewrite (Create_fresh_key _ _ _ v) by done.
      by cbn.
Qed.

(** The request of the README, whose isbn has 17 characters, on a server in
    strict mode; the same book with a bare isbn; and then the same title in
    capitals, which the unique key holds equal. *)
Example POST_README_request :
  let parse_date := fun _ : string => Some 60724080000000000000 in
  let gatsby isbn title :=
    POST_book (Ok {| req_Title := title; req_Author := "F. Scott Fitzgerald";
                     req_ISBN := isbn;
                     req_Description := "A classic American novel";
                     req_PublishedAt := "1925-04-10" |}) in
  let '(resp1, t1, _) :=
    api.Routes None parse_date 9000 9000
      (gatsby "978-0-7432-7356-5" "The Great Gatsby") empty_table in
  let '(resp2, t2, _) :=
    api.Routes None parse_date 9000 9000
      (gatsby "9780743273565" "The Great Gatsby") t1 in
  let '(resp3, t3, _) :=
    api.Routes None parse_date 9000 9000
      (gatsby "9780743273565" "THE GREAT GATSBY") t2 in
  resp1 = HTTPError 500 (ErrSQL (MySQLError 1406)) /\ t1 = empty_table /\
  status resp2 = 201 /\ length (rows t2) = 1%nat /\
  resp3 = HTTPError 400 ErrBookAlreadyExists /\ t3 = t2.
Proof. vm_compute. done. Qed.

Lemma validation_passes_update (title author : string) :
  validate.HasErrors
    (validate.Required "author" author
       (validate.Required "title" title validate.New))
  = bool_decide (title = "") || bool_decide (author = "").
Proof.
  unfold validate.HasErrors, validate.Required, validate.New.
  repeat case_bool_decide; cbn in *; rewrite ?length_app in *; cbn in *;
    try done; lia.
Qed.

(** X23. PUT /books/:id answers, in this order: 400 with cause InvalidData
    when the path id does not parse; 500 when [ctx.Bind] fails; 400 with a
    validation error when title or author is empty; 400 with cause
    InvalidData when a publishedAt is given and does not parse; all four
    without any collaborator call; 404 with cause NotFound when no active
    row has the id; 500 with the error of the driver when the engine refuses
    a value; 400 with cause AlreadyExists when a row of another id holds the
    triple, as the columns take it, under the collation of the table; and
    otherwise 200 with the stored book carrying the fields of the request,
    while the row takes each value as its column takes it.  The table
    changes in the last case only.  A request without publishedAt sets
    publishedAt to the clock reading of the service. *)
Theorem PUT_status {E : Engine}
    (cache : option Cache) (parse_date : string -> option Time)
    (now now' : Time) (idParam : string) (bound : result CreateBookRequest)
    (t : Table) :
  let '(resp, t', tr) :=
    api.Routes cache parse_date now now' (PUT_book idParam bound) t in
  match ParseInt64 idParam with
  | None => resp = HTTPError 400 ErrInvalidBookData /\ t' = t /\ tr = []
  | Some id =>
      match bound with
      | Err (ErrEcho code) =>
          resp = HTTPError 500 (ErrEcho code) /\ t' = t /\ tr = []
      | Err err => resp = api.ErrorHandler (Err err) /\ t' = t /\ tr = []
      | Ok req =>
          if bool_decide (req_Title req = "") || bool_decide (req_Author req = "")
          then (exists msgs, resp = HTTPError 400 (ErrValidation msgs))
               /\ t' = t /\ tr = []
          else
            match (if bool_decide (req_PublishedAt req <> "")
                   then parse_date (req_PublishedAt req) else Some 0) with
            | None =>
                resp = HTTPError 400 ErrInvalidBookData /\ t' = t /\ tr = []
            | Some published =>
                let book :=
                  update_argument now now'
                    (BookController.book_of_request req published) in
                match find (targets id) (rows t) with
                | None => resp = HTTPError 404 ErrBookNotFound /\ t' = t
                | Some existing =>
                    match update_values book with
                    | inl e => resp = HTTPError 500 (ErrSQL e) /\ t' = t
                    | inr v =>
                        if existsb (fun r => same_key v r
                                             && negb (bool_decide (ID r = id)))
                                   (rows t)
                        then resp = HTTPError 400 ErrBookAlreadyExists /\ t' = t
                        else
                          resp = JSON 200 (JBook (mysql.updatedBook existing book))
                          /\ rows t'
                             = map (fun r => if targets id r
                                             then updated_row v r else r)
                                   (rows t)
                          /\ (req_PublishedAt req = "" -> PublishedAt book = now')
                    end
                end
            end
      end
  end.
Proof.
  unfold api.Routes, BookController.Update.
  destruct (ParseInt64 idParam) as [id|]; [|done].
  destruct bound as [req|err].
  2: { unfold mbind, M_bind, mret, M_ret; cbn. by destruct err. }
  rewrite validation_passes_update.
  destruct (bool_decide (req_Title req = "")) eqn:Htitle;
    [unfold mbind, M_bind, mret, M_ret; cbn; eauto|].
  destruct (bool_decide (req_Author req = "")) eqn:Hauthor;
    [unfold mbind, M_bind, mret, M_ret; cbn; eauto|].
  apply bool_decide_eq_false in Htitle, Hauthor. cbn [orb].
  assert (Hparsed :
    (if bool_decide (req_PublishedAt req <> "")
     then match parse_date (req_PublishedAt req) with
          | Some t0 => Some t0
          | None => None
          end
     else Some 0)
    = (if bool_decide (req_PublishedAt req <> "")
       then parse_date (req_PublishedAt req) else Some 0)).
  { destruct (bool_decide _); [|done]. by destruct (parse_date _). }
  rewrite Hparsed. clear Hparsed.
  destruct (if bool_decide (req_PublishedAt req <> "")
            then parse_date (req_PublishedAt req) else Some 0)
    as [published|] eqn:Hpublished;
    [|unfold mbind, M_bind, mret, M_ret; by cbn].
  cbv zeta. unfold mbind at 1, M_bind at 1.
  rewrite Update_calls_repository by done.
  set (book := update_argument now now'
                 (BookController.book_of_request req published)).
  unfold_service. unfold_mysql. rewrite sql_select_by_id_find.
  destruct (find (targets id) (rows t)) as [existing|] eqn:Hfind; [|done].
  unfold sql_update. rewrite find_existsb, Hfind. unfold_sql.
  destruct (update_values book) as [e|v] eqn:Hvalues.
  { pose proof (update_values_refused _ _ Hvalues) as Hrefused.
    unfold mysql.is_duplicate_key in Hrefused. rewrite Hrefused. by cbn. }
  destruct (existsb _ (rows t)); [by cbn|].
  destruct cache; cbn; (split; [done|]); (split; [done|]);
    intros Hempty; rewrite Hempty in Hpublished; cbn in Hpublished;
    injection Hpublished as <-; reflexivity.
Qed.

(** A request without publishedAt, on the store of two books. *)
Example PUT_without_publishedAt :
  let '(resp, t', _) :=
    api.Routes None (fun _ => None) 5000 6000
      (PUT_book "1" (Ok {| req_Title := "Dune"; req_Author := "Frank Herbert";
                           req_ISBN := "9780441013593";
                           req_Description := "Arrakis";
                           req_PublishedAt := "" |}))
      (s_db two_books) in
  status resp = 200 /\
  PublishedAt <$> rows (s_db two_books) !! 0%nat = Some 700000 /\
  PublishedAt <$> rows t' !! 0%nat = Some 6000.
Proof. vm_compute. done. Qed.

(** X20. With a path id that parses, DELETE /books/:id answers 404 with
    cause NotFound and an unchanged table when no active row has the id;
    otherwise 204, after which that row is soft-deleted, unless the engine
    refuses the clock reading as a deletedAt, which is a 500 with an
    unchanged table.  GET /books/:id answers 200 with the cached book when
    the cache answers with one, else 200 with the active row of the id, else
    404 with cause NotFound, and never changes the table. *)
Theorem by_id_status {E : Engine}
    (cache : option Cache) (parse_date : string -> option Time)
    (now now' : Time) (idParam : string) (id : Z) (t : Table) :
  ParseInt64 idParam = Some id ->
  (let '(resp, t', _) :=
     api.Routes cache parse_date now now' (DELETE_book idParam) t in
   if existsb (targets id) (rows t)
   then match datetime6 now with
        | Some _ =>
            resp = NoContent 204 /\
            forall r, r ∈ rows t' -> ID r = id -> is_Some (DeletedAt r)
        | None => resp = HTTPError 500 (ErrSQL (MySQLError 1292)) /\ t' = t
        end
   else resp = HTTPError 404 ErrBookNotFound /\ t' = t) /\
  (let '(resp, t', _) :=
     api.Routes cache parse_date now now' (GET_book idParam) t in
   t' = t /\
   match cache with
   | Some c =>
       match cache_Get_Book c (getByIDCacheKey id) with
       | Ok b => resp = JSON 200 (JBook b)
       | Err _ =>
           match find (targets id) (rows t) with
           | Some b => resp = JSON 200 (JBook b)
           | None => resp = HTTPError 404 ErrBookNotFound
           end
       end
   | None =>
       match find (targets id) (rows t) with
       | Some b => resp = JSON 200 (JBook b)
       | None => resp = HTTPError 404 ErrBookNotFound
       end
   end).
Proof.
  intros Hid. split.
  - unfold api.Routes, BookController.Delete. rewrite Hid.
    unfold_service. unfold_mysql. rewrite sql_select_by_id_find.
    destruct (existsb (targets id) (rows t)) eqn:Hany.
    + rewrite find_existsb in Hany.
      destruct (find (targets id) (rows t)) as [existing|] eqn:Hfind; [|done].
      destruct (sql_soft_delete id now t) as [e|t'] eqn:Hdel.
      * revert Hdel. unfold sql_soft_delete, datetime_value. unfold_sql.
        rewrite find_existsb, Hfind.
        destruct (datetime6 now); [done|]. by intros [= <-].
      * pose proof (soft_deleted_gone _ _ _ _ Hdel) as Hgone.
        revert Hdel. unfold sql_soft_delete, datetime_value. unfold_sql.
        rewrite find_existsb, Hfind.
        destruct (datetime6 now); [|done]. intros _.
        by destruct cache.
    + rewrite find_existsb in Hany.
      by destruct (find (targets id) (rows t)).
  - unfold api.Routes, BookController.GetByID. rewrite Hid.
    unfold_service. unfold_mysql.
    destruct cache as [c|]; cbn.
    + destruct (cache_Get_Book c (getByIDCacheKey id)); cbn; [done|].
      rewrite (sql_select_by_id_find id t).
      by destruct (find (targets id) (rows t)).
    + rewrite (sql_select_by_id_find id t).
      by destruct (find (targets id) (rows t)).
Qed.

Lemma by_id_status_witness :
  fst (fst (api.Routes None (fun _ => None) 1 2 (DELETE_book "999")
              (s_db two_books)))
  = HTTPError 404 ErrBookNotFound.
Proof.
  pose proof (by_id_status None (fun _ => None) 1 2 "999" 999 (s_db two_books)
                eq_refl) as [Hdel _].
  destruct (api.Routes None (fun _ => None) 1 2 (DELETE_book "999")
              (s_db two_books)) as [[resp t'] tr].
  exact (proj1 Hdel).
Defined.

(** ** Validation messages *)

Lemma append_assoc (s1 s2 s3 : string) :
  (s1 +:+ s2) +:+ s3 = s1 +:+ (s2 +:+ s3).
Proof.
  induction s1 as [|c s1 IH]; [done|].
  change (String c ((s1 +:+ s2) +:+ s3) = String c (s1 +:+ (s2 +:+ s3))).
  by rewrite IH.
Qed.

Lemma Error_loop_join (i : nat) (errors : list string) (msg : string) :
  (0 < i)%nat ->
  validate.Error_loop i errors msg
  = match errors with
    | [] => msg
    | _ => msg +:+ "; " +:+ String.concat "; " errors
    end.
Proof.
  revert i msg. induction errors as [|e rest IH]; intros i msg Hi; [done|].
  cbn [validate.Error_loop]. rewrite bool_decide_eq_true_2 by done.
  rewrite IH by lia. destruct rest as [|e' rest]; cbn [String.concat].
  - by rewrite append_assoc.
  - by rewrite !append_assoc.
Qed.

Lemma checked_from (v : validate.Validator) (checks : list (string * string)) :
  foldl (fun v c => validate.Required (fst c) (snd c) v) v checks
  = v ++ map (fun c => fst c +:+ " is required")
             (filter (fun c => snd c = "") checks).
Proof.
  revert v. induction checks as [|[field value] checks IH]; intros v.
  - cbn. by rewrite app_nil_r.
  - cbn [foldl fst snd]. rewrite IH. unfold validate.Required.
    destruct (decide (value = "")) as [->|Hne].
    + rewrite filter_cons_True by done.
      rewrite bool_decide_eq_true_2 by done. cbn [map fst].
      by rewrite <- app_assoc.
    + rewrite bool_decide_eq_false_2 by done.
      by rewrite filter_cons_False by done.
Qed.

(** X21. A validator collects one message "<field> is required" for each
    checked field whose value is empty, in the order of the checks, and
    nothing for the others; it has errors exactly when some checked value is
    empty; and its text is empty without errors and otherwise
    "validation errors: " followed by the messages joined with "; ". *)
Theorem validator_collects (checks : list (string * string)) :
  checked checks
  = map (fun c => fst c +:+ " is required")
        (filter (fun c => snd c = "") checks) /\
  (validate.HasErrors (checked checks) = true <->
   exists c, c ∈ checks /\ snd c = "") /\
  validate.Error (checked checks)
  = match checked checks with
    | [] => ""
    | errors => "validation errors: " +:+ String.concat "; " errors
    end.
Proof.
  assert (Hchecked : checked checks
            = map (fun c => fst c +:+ " is required")
                  (filter (fun c => snd c = "") checks))
    by apply (checked_from []).
  split; [done|]. split.
  - rewrite Hchecked. unfold validate.HasErrors.
    rewrite bool_decide_eq_true, length_map. split.
    + intros Hlen.
      destruct (filter (fun c => snd c = "") checks) as [|c l] eqn:Hf;
        [cbn in Hlen; lia|].
      assert (Hc : c ∈ filter (fun c => snd c = "") checks)
        by (rewrite Hf; apply list_elem_of_here).
      apply list_elem_of_filter in Hc as [Hempty Hin]. eauto.
    + intros (c & Hin & Hempty).
      assert (Hc : c ∈ filter (fun c => snd c = "") checks)
        by by apply list_elem_of_filter.
      destruct (filter (fun c => snd c = "") checks);
        [by apply elem_of_nil in Hc | cbn; lia].
  - unfold validate.Error. destruct (checked checks) as [|e rest]; [done|].
    cbn [length bool_decide]. rewrite bool_decide_eq_false_2 by done.
    cbn [validate.Error_loop]. rewrite bool_decide_eq_false_2 by lia.
    rewrite Error_loop_join by lia.
    destruct rest as [|e' rest]; cbn [String.concat]; [done|].
    by rewrite !append_assoc.
Qed.

(** ** Ids in paths *)

Lemma digit_of_pretty (d : N) :
  (d < 10)%N -> digit_of (pretty_N_char d) = Some (Z.of_N d).
Proof.
  intros Hd.
  assert (d = 0 \/ d = 1 \/ d = 2 \/ d = 3 \/ d = 4 \/ d = 5 \/ d = 6 \/ d = 7
          \/ d = 8 \/ d = 9)%N as Hcases by lia.
  repeat (destruct Hcases as [->|Hcases]; [reflexivity|]). by subst.
Qed.

Lemma parse_pretty_go (x : N) (s : string) :
  exists p, forall acc,
    parse_digits (pretty_N_go x s) acc = parse_digits s (acc * p + Z.of_N x).
Proof.
  revert s. induction (N.lt_wf_0 x) as [x _ IH]; intros s.
  destruct (decide (x = 0)%N) as [->|Hpos].
  - exists 1. intros acc. rewrite pretty_N_go_0. f_equal. lia.
  - rewrite pretty_N_go_step by lia.
    destruct (IH (x `div` 10)%N) with
      (s := String (pretty_N_char (x `mod` 10)) s) as [p Hp].
    { apply N.div_lt; lia. }
    exists (10 * p). intros acc. rewrite Hp. cbn [parse_digits].
    rewrite digit_of_pretty by (apply N.mod_lt; lia).
    f_equal. rewrite N2Z.inj_div, N2Z.inj_mod.
    pose proof (Z.div_mod (Z.of_N x) 10). lia.
Qed.

Lemma pretty_go_head (x : N) (s : string) :
  (0 < x)%N ->
  exists d rest, (d < 10)%N /\
                 pretty_N_go x s = String (pretty_N_char d) rest.
Proof.
  revert s. induction (N.lt_wf_0 x) as [x _ IH]; intros s Hpos.
  rewrite pretty_N_go_step by done.
  destruct (decide (x `div` 10 = 0)%N) as [Hz|Hnz].
  - rewrite Hz, pretty_N_go_0. eexists _, _. split; [|done].
    apply N.mod_lt. lia.
  - apply IH; [apply N.div_lt; lia | by apply N.neq_0_lt_0].
Qed.

Lemma numeral_unsigned (c : ascii) (rest : string) :
  c <> "+"%char -> c <> "-"%char ->
  numeral (String c rest)
  = match parse_digits (String c rest) 0 with
    | Some n => Some n
    | None => None
    end.
Proof.
  intros Hplus Hminus. unfold numeral.
  destruct c as [[] [] [] [] [] [] [] []]; try done.
Qed.

Lemma numeral_pretty_pos (p : positive) :
  exists c rest, pretty (Npos p) = String c rest /\
                 parse_digits (String c rest) 0 = Some (Zpos p) /\
                 numeral (String c rest) = Some (Zpos p).
Proof.
  unfold pretty, pretty_N. rewrite decide_False by done.
  destruct (pretty_go_head (Npos p) "") as (d & rest & Hd & Hhead); [lia|].
  destruct (parse_pretty_go (Npos p) "") as [q Hq].
  exists (pretty_N_char d), rest. split; [done|].
  assert (Hparse : parse_digits (String (pretty_N_char d) rest) 0
                   = Some (Zpos p)).
  { rewrite <- Hhead, Hq. cbn. f_equal. }
  split; [done|]. rewrite numeral_unsigned, Hparse; [done| |].
  - unfold pretty_N_char. by repeat case_match.
  - unfold pretty_N_char. by repeat case_match.
Qed.

Lemma numeral_pretty (z : Z) : numeral (pretty z) = Some z.
Proof.
  destruct z as [|p|p]; [done| |].
  - destruct (numeral_pretty_pos p) as (c & rest & Heq & _ & Hnum).
    change (pretty (Zpos p)) with (pretty (Npos p)). by rewrite Heq.
  - destruct (numeral_pretty_pos p) as (c & rest & Heq & Hparse & _).
    change (pretty (Zneg p)) with (String "-"%char (pretty (Npos p))).
    rewrite Heq. unfold numeral. by rewrite Hparse.
Qed.

(** X22. Round trip of ids through a path: the decimal rendering of any
    int64 parses back to the same number, with [strconv.Atoi] as with
    [strconv.ParseInt], so that GET /books/<id> reaches the service with
    that id. *)
Theorem id_round_trip {R : Type} `{BookRepository R}
    (cache : option Cache) (id : Z) :
  min_int <= id <= max_int ->
  Atoi (pretty id) = Some id /\
  ParseInt64 (pretty id) = Some id /\
  BookController.GetByID cache (pretty id) = BookService.GetByID (R:=R) cache id.
Proof.
  intros Hrange. unfold BookController.GetByID, Atoi, ParseInt64.
  rewrite numeral_pretty. unfold min_int, max_int in *.
  assert (Hlo : (- 2 ^ 63 <=? id) = true) by (apply Z.leb_le; lia).
  assert (Hhi : (id <=? 2 ^ 63 - 1) = true) by (apply Z.leb_le; lia).
  by rewrite Hlo, Hhi.
Qed.

Lemma id_round_trip_witness :
  Atoi (pretty (-9223372036854775808)) = Some (-9223372036854775808).
Proof.
  apply (id_round_trip (R:=Table) None (-9223372036854775808)).
  unfold min_int, max_int. lia.
Defined.

